(** * One-time message service: the message store and its XOR codec

    Shallow embedding of
    - [backend/src/index.ts]  (single-table store, module [Single]),
    - the split-table variant of the same file (tables [messages] and [keys],
      module [Split]),
    - the decoding step of [frontend/src/App.tsx] ([fetchMessage]).

    JavaScript strings are sequences of UTF-16 code units; they are modelled
    as [list Z].  The SQLite tables have [id] as primary key and are modelled
    as finite maps from the id to the row; the column [message] holds the
    text as UTF-8 ([sqlite_text]), and the JSON body carries a row to the
    page unchanged.  The sources of randomness and of time are explicit
    arguments: the bytes that [crypto.randomBytes] will deliver and the clock
    readings.  The sanitiser of the [xss] package is a parameter of the
    handlers, and the router that takes [params.id] from a URL is a parameter
    of the page. *)

From Stdlib Require Import ZArith Lia String Ascii.
From Stdlib.Strings Require Import Byte.
From stdpp Require Import gmap list.

Local Open Scope Z_scope.

(** ** JavaScript strings and numbers *)

Abbreviation jsstring := (list Z).

(** A string literal of the source, as code units. *)
Definition lit (s : string) : jsstring :=
  map (fun a => Z.of_N (N_of_ascii a)) (list_ascii_of_string s).

(** Every code unit of a JavaScript string is a 16-bit value. *)
Definition code_unit (c : Z) : Prop := 0 <= c < 65536.
Definition wf_string (s : jsstring) : Prop := Forall code_unit s.

(** The numbers that occur in the codec: integers and [NaN]. *)
Inductive number : Type :=
  | NaN : number
  | Num : Z -> number.

Definition js_length (s : jsstring) : number := Num (Z.of_nat (length s)).

(** [a % b]: the remainder has the sign of the dividend; [x % 0] is [NaN]. *)
Definition js_rem (a b : number) : number :=
  match a, b with
  | Num x, Num y => if y =? 0 then NaN else Num (Z.rem x y)
  | _, _ => NaN
  end.

(** [ToIntegerOrInfinity]: [NaN] becomes 0. *)
Definition ToIntegerOrInfinity (n : number) : Z :=
  match n with NaN => 0 | Num z => z end.

(** [s.charCodeAt(pos)]: the code unit at [pos], [NaN] out of range. *)
Definition charCodeAt (s : jsstring) (pos : number) : number :=
  let p := ToIntegerOrInfinity pos in
  if (p <? 0) || (Z.of_nat (length s) <=? p) then NaN
  else match s !! Z.to_nat p with
       | Some c => Num c
       | None => NaN
       end.

(** [ToInt32]: [NaN] becomes 0, an integer wraps into [-2^31, 2^31). *)
Definition ToInt32 (n : number) : Z :=
  match n with
  | NaN => 0
  | Num z => (z + 2147483648) mod 4294967296 - 2147483648
  end.

(** [a ^ b] *)
Definition js_xor (a b : number) : number :=
  Num (Z.lxor (ToInt32 a) (ToInt32 b)).

(** [ToUint16] and [String.fromCharCode] with one argument. *)
Definition ToUint16 (n : number) : Z :=
  match n with NaN => 0 | Num z => z mod 65536 end.

Definition fromCharCode (n : number) : jsstring := [ToUint16 n].

(** [s.split('')]: one string per code unit; [l.join('')]. *)
Definition split_chars (s : jsstring) : list jsstring := map (fun c => [c]) s.
Definition join (l : list jsstring) : jsstring := concat l.

(** ** The codec *)

(** [backend/src/index.ts], lines 48-53: [encryptedMessage]. *)
Definition encryptMessage (message key : jsstring) : jsstring :=
  join (imap (fun i char =>
                fromCharCode
                  (js_xor (charCodeAt char (Num 0))
                          (charCodeAt key (js_rem (Num (Z.of_nat i)) (js_length key)))))
             (split_chars message)).

(** [frontend/src/App.tsx], lines 157-164: [decryptedMessage]. *)
Definition decryptMessage (encryptedMessage key : jsstring) : jsstring :=
  join (imap (fun i char =>
                fromCharCode
                  (js_xor (charCodeAt char (Num 0))
                          (charCodeAt key (js_rem (Num (Z.of_nat i)) (js_length key)))))
             (split_chars encryptedMessage)).

(** The code unit that position [i] of a text is combined with. *)
Definition key_unit (key : jsstring) (i : nat) : number :=
  charCodeAt key (js_rem (Num (Z.of_nat i)) (js_length key)).

Definition xor_unit (key : jsstring) (i : nat) (c : Z) : Z :=
  ToUint16 (js_xor (Num c) (key_unit key i)).

(** ** Random bytes and their hexadecimal form *)

(** The random source: the bytes [crypto.randomBytes] will deliver, in
    order.  A call takes the first [size] of them and leaves the rest. *)
Definition entropy : Type := nat -> byte.

Definition randomBytes (src : entropy) (size : nat) : list byte * entropy :=
  (map src (seq 0 size), fun i => src (size + i)%nat).

Definition hex_digit (n : Z) : Z := if n <? 10 then 48 + n else 87 + n.

Definition hex_byte (b : byte) : jsstring :=
  let n := Z.of_N (Byte.to_N b) in [hex_digit (n / 16); hex_digit (n mod 16)].

(** [buffer.toString('hex')]: two lower-case digits per byte. *)
Definition toString_hex (bs : list byte) : jsstring := concat (map hex_byte bs).

(** [generateKey], lines 34-35. *)
Definition generateKey (src : entropy) (length : nat) : jsstring * entropy :=
  let '(bytes, src') := randomBytes src length in (toString_hex bytes, src').

(** ** Dates (ECMA-262, 21.4.1) and [toISOString] *)

Definition msPerDay : Z := 86400000.
Definition Day (t : Z) : Z := t / msPerDay.

Definition DayFromYear (y : Z) : Z :=
  365 * (y - 1970) + (y - 1969) / 4 - (y - 1901) / 100 + (y - 1601) / 400.

(** The largest [y] with [DayFromYear y <= Day t]: an estimate from the mean
    length of a year, corrected by at most one. *)
Definition YearFromTime (t : Z) : Z :=
  let d := Day t in
  let y := 1970 + d * 400 / 146097 in
  if DayFromYear (y + 1) <=? d then y + 1
  else if DayFromYear y <=? d then y
  else y - 1.

Definition DaysInYear (y : Z) : Z :=
  if negb (y mod 4 =? 0) then 365
  else if negb (y mod 100 =? 0) then 366
  else if negb (y mod 400 =? 0) then 365
  else 366.

Definition InLeapYear (t : Z) : Z :=
  if DaysInYear (YearFromTime t) =? 366 then 1 else 0.

Definition DayWithinYear (t : Z) : Z := Day t - DayFromYear (YearFromTime t).

Definition MonthFromTime (t : Z) : Z :=
  let d := DayWithinYear t in
  let leap := InLeapYear t in
  if d <? 31 then 0
  else if d <? 59 + leap then 1
  else if d <? 90 + leap then 2
  else if d <? 120 + leap then 3
  else if d <? 151 + leap then 4
  else if d <? 181 + leap then 5
  else if d <? 212 + leap then 6
  else if d <? 243 + leap then 7
  else if d <? 273 + leap then 8
  else if d <? 304 + leap then 9
  else if d <? 334 + leap then 10
  else 11.

Definition DateFromTime (t : Z) : Z :=
  let d := DayWithinYear t in
  let leap := InLeapYear t in
  match MonthFromTime t with
  | 0 => d + 1
  | 1 => d - 30
  | 2 => d - 58 - leap
  | 3 => d - 89 - leap
  | 4 => d - 119 - leap
  | 5 => d - 150 - leap
  | 6 => d - 180 - leap
  | 7 => d - 211 - leap
  | 8 => d - 242 - leap
  | 9 => d - 272 - leap
  | 10 => d - 303 - leap
  | _ => d - 333 - leap
  end.

Definition HourFromTime (t : Z) : Z := (t / 3600000) mod 24.
Definition MinFromTime (t : Z) : Z := (t / 60000) mod 60.
Definition SecFromTime (t : Z) : Z := (t / 1000) mod 60.
Definition msFromTime (t : Z) : Z := t mod 1000.

(** [n] in decimal, padded with zeros to [width] digits. *)
Fixpoint digits (width : nat) (n : Z) : jsstring :=
  match width with
  | O => []
  | S w => digits w (n / 10) ++ [48 + n mod 10]
  end.

(** Years 0 to 9999 take four digits, the others a sign and six digits. *)
Definition year_string (y : Z) : jsstring :=
  if (0 <=? y) && (y <=? 9999) then digits 4 y
  else (if 0 <=? y then lit "+" else lit "-") ++ digits 6 (Z.abs y).

(** [new Date(t).toISOString()]: [YYYY-MM-DDTHH:mm:ss.sssZ]. *)
Definition toISOString (t : Z) : jsstring :=
  year_string (YearFromTime t) ++ lit "-" ++ digits 2 (MonthFromTime t + 1)
    ++ lit "-" ++ digits 2 (DateFromTime t)
    ++ lit "T" ++ digits 2 (HourFromTime t)
    ++ lit ":" ++ digits 2 (MinFromTime t)
    ++ lit ":" ++ digits 2 (SecFromTime t)
    ++ lit "." ++ digits 3 (msFromTime t) ++ lit "Z".

(** ** SQLite *)

(** [a < b] on TEXT values (BINARY collation): the first differing unit
    decides, a proper prefix is smaller.  The only values compared are the
    ASCII timestamps written by [toISOString]. *)
Fixpoint text_ltb (a b : jsstring) : bool :=
  match a, b with
  | _, [] => false
  | [], _ :: _ => true
  | x :: a', y :: b' => (x <? y) || ((x =? y) && text_ltb a' b')
  end.

(** A TEXT column holds UTF-8, which has no code for a surrogate on its
    own.  What comes back for a string written to it: a high surrogate with
    the low surrogate after it stays, every other surrogate comes back as
    U+FFFD. *)
Definition is_high_surrogate (c : Z) : bool := (55296 <=? c) && (c <=? 56319).
Definition is_low_surrogate (c : Z) : bool := (56320 <=? c) && (c <=? 57343).

Fixpoint sqlite_text (s : jsstring) : jsstring :=
  match s with
  | [] => []
  | c :: rest =>
      if is_high_surrogate c then
        match rest with
        | d :: rest' =>
            if is_low_surrogate d then c :: d :: sqlite_text rest'
            else 65533 :: sqlite_text rest
        | [] => [65533]
        end
      else if is_low_surrogate c then 65533 :: sqlite_text rest
      else c :: sqlite_text rest
  end.

(** [s.isWellFormed()]: no surrogate on its own. *)
Fixpoint isWellFormed (s : jsstring) : bool :=
  match s with
  | [] => true
  | c :: rest =>
      if is_high_surrogate c then
        match rest with
        | d :: rest' => is_low_surrogate d && isWellFormed rest'
        | [] => false
        end
      else negb (is_low_surrogate c) && isWellFormed rest
  end.

(** Two units of the same kind: high surrogate, low surrogate, or neither. *)
Definition same_class (a b : Z) : Prop :=
  is_high_surrogate a = is_high_surrogate b /\
  is_low_surrogate a = is_low_surrogate b.

Inductive Error : Type :=
  | SQLITE_CONSTRAINT_PRIMARYKEY : Error.

(** A call returns or throws. *)
Inductive outcome (A : Type) : Type :=
  | Returned : A -> outcome A
  | Thrown : Error -> outcome A.
Arguments Returned {A} _.
Arguments Thrown {A} _.

(** [INSERT INTO table ...] on a table whose primary key is [id]. *)
Definition insert_row {R : Type} (id : jsstring) (row : R)
    (table : gmap jsstring R) : outcome unit * gmap jsstring R :=
  match table !! id with
  | Some _ => (Thrown SQLITE_CONSTRAINT_PRIMARYKEY, table)
  | None => (Returned tt, <[id := row]> table)
  end.

(** ** Request headers *)

(** [a || b] on values of type [string | undefined | null]. *)
Definition js_or (a b : option jsstring) : option jsstring :=
  match a with
  | Some (_ :: _) => a
  | _ => b
  end.

(** [expires], line 45: 24 hours, in seconds. *)
Definition expires : Z := 60 * 60 * 24.

(** ** The single-table store, [backend/src/index.ts] *)

Module Single.

(** A row of [messages] (type [Message], lines 23-32; table, lines 10-21). *)
Record Message : Type := mkMessage {
  message : jsstring;
  key : jsstring;
  createdAt : jsstring;
  expiresAt : jsstring;
  ipReader : option jsstring;
  ipWriter : option jsstring;
  userAgent : option jsstring;
  id : jsstring
}.

(** The table [messages], by primary key. *)
Abbreviation DB := (gmap jsstring Message).

(** [Messages.set], lines 38-70.  [t_created] is the clock read by
    [new Date()] on line 44, [t_now] the one read by [Date.now()] on
    line 46.  The column [message] holds the encoded text as SQLite gives it
    back; the other columns hold hexadecimal text, timestamps and header
    values, which have no surrogates. *)
Definition set (src : entropy) (t_created t_now : Z) (message : jsstring)
    (headers : gmap jsstring jsstring) (db : DB) : outcome jsstring * DB :=
  let '(key, src) := generateKey src (length message) in
  let id := toString_hex (fst (randomBytes src 16)) in
  let userAgent := headers !! lit "user-agent" in
  let ipWriter :=
    js_or (js_or (headers !! lit "x-forwarded-for") (headers !! lit "x-real-ip")) None in
  let createdAt := toISOString t_created in
  let expiresAt := toISOString (t_now + expires * 1000) in
  let encryptedMessage := encryptMessage message key in
  match insert_row id
          {| message := sqlite_text encryptedMessage; key := key;
             createdAt := createdAt;
             expiresAt := expiresAt; ipReader := None; ipWriter := ipWriter;
             userAgent := userAgent; id := id |} db with
  | (Returned _, db') => (Returned id, db')
  | (Thrown e, db') => (Thrown e, db')
  end.

(** [Messages.get], lines 72-85: the row, or [null]. *)
Definition get (id : jsstring) (db : DB) : option Message := db !! id.

(** [Messages.destroy], lines 87-90. *)
Definition destroy (id : jsstring) (db : DB) : DB := delete id db.

(** [Messages.purgeExpired], lines 92-96; [t] is the clock read on line 93. *)
Definition purgeExpired (t : Z) (db : DB) : DB :=
  let now := toISOString t in
  filter (fun row => text_ltb (expiresAt row.2) now = false) db.

Inductive Response : Type :=
  | Ok_text : jsstring -> Response
  | Ok_message : Message -> Response
  | Ok_id : jsstring -> Response
  | Error_404 : jsstring -> Response
  | Error_500 : Error -> Response.

(** What the two GET handlers do with the sanitised id: the condition of
    line 119 ([messages.get(id)] as a truth value), and lines 123-126 (read
    it and destroy). *)
Definition exists_ (id : jsstring) (db : DB) : bool :=
  match get id db with Some _ => true | None => false end.

Definition fetchAndConsume (id : jsstring) (db : DB) : option Message * DB :=
  let message := get id db in
  let db := destroy id db in
  (message, db).

Section Handlers.

Variable xss : jsstring -> jsstring.

(** [GET /available/:id], lines 117-120. *)
Definition available (params_id : jsstring) (db : DB) : Response :=
  let id := xss params_id in
  if exists_ id db then Ok_text (lit "exist")
  else Error_404 (lit "Message not found").

(** [GET /message/:id], lines 121-127. *)
Definition message_get (params_id : jsstring) (db : DB) : Response * DB :=
  let id := xss params_id in
  let '(message, db) := fetchAndConsume id db in
  (match message with
   | Some m => Ok_message m
   | None => Error_404 (lit "Message not found")
   end, db).

(** [POST /message], lines 128-138. *)
Definition message_post (src : entropy) (t_created t_now : Z)
    (body_message : jsstring) (headers : gmap jsstring jsstring) (db : DB)
    : Response * DB :=
  let message := xss body_message in
  match set src t_created t_now message headers db with
  | (Returned id, db) => (Ok_id id, db)
  | (Thrown e, db) => (Error_500 e, db)
  end.

End Handlers.

(** [n] calls of [fetchAndConsume] for the same id, one after the other. *)
Fixpoint fetch_repeatedly (n : nat) (id : jsstring) (db : DB)
    : list (option Message) * DB :=
  match n with
  | O => ([], db)
  | S n' =>
      let '(r, db1) := fetchAndConsume id db in
      let '(rs, db2) := fetch_repeatedly n' id db1 in
      (r :: rs, db2)
  end.

(** [fetchMessage] of [frontend/src/App.tsx], lines 151-172: what the page
    shows for a response of [GET /message/:id]. *)
Inductive View : Type :=
  | Shown : jsstring -> View
  | Failed : jsstring -> View.

Definition fetchMessage (response : Response) : View :=
  match response with
  | Ok_message body => Shown (decryptMessage (message body) (key body))
  | _ => Failed (lit "Failed to fetch the message. It might have expired.")
  end.

End Single.

(** ** The split-table store: [messages] without the key, and [keys] *)

Module Split.

(** What [get] returns (type [Message]). *)
Record Message : Type := mkMessage {
  message : jsstring;
  key : jsstring;
  createdAt : jsstring;
  expiresAt : jsstring;
  ipReader : option jsstring;
  ipWriter : option jsstring;
  userAgent : option jsstring;
  id : jsstring
}.

(** A row of [messages] and a row of [keys]. *)
Record MessageRow : Type := mkMessageRow {
  row_message : jsstring;
  row_createdAt : jsstring;
  row_expiresAt : jsstring;
  row_ipReader : option jsstring;
  row_ipWriter : option jsstring;
  row_userAgent : option jsstring;
  row_id : jsstring
}.

Record KeyRow : Type := mkKeyRow {
  key_id : jsstring;
  key_key : jsstring
}.

Record DB : Type := mkDB {
  messages : gmap jsstring MessageRow;
  keys : gmap jsstring KeyRow
}.

Definition empty_db : DB := {| messages := ∅; keys := ∅ |}.

(** [Messages.set]: the row of [messages] is inserted first, then the row
    of [keys]. *)
Definition set (src : entropy) (t_created t_now : Z) (message : jsstring)
    (headers : gmap jsstring jsstring) (db : DB) : outcome jsstring * DB :=
  let '(key, src) := generateKey src (length message) in
  let id := toString_hex (fst (randomBytes src 16)) in
  let userAgent := headers !! lit "user-agent" in
  let ipWriter :=
    js_or (js_or (headers !! lit "x-forwarded-for") (headers !! lit "x-real-ip")) None in
  let createdAt := toISOString t_created in
  let expiresAt := toISOString (t_now + expires * 1000) in
  let encryptedMessage := encryptMessage message key in
  match insert_row id
          {| row_message := sqlite_text encryptedMessage;
             row_createdAt := createdAt;
             row_expiresAt := expiresAt; row_ipReader := None;
             row_ipWriter := ipWriter; row_userAgent := userAgent;
             row_id := id |} (messages db) with
  | (Thrown e, _) => (Thrown e, db)
  | (Returned _, messages') =>
      let db := {| messages := messages'; keys := keys db |} in
      match insert_row id {| key_id := id; key_key := key |} (keys db) with
      | (Thrown e, _) => (Thrown e, db)
      | (Returned _, keys') =>
          (Returned id, {| messages := messages db; keys := keys' |})
      end
  end.

(** [Messages.get]: [null] unless both rows are there; else the row of
    [messages] with the key of the row of [keys]. *)
Definition get (id : jsstring) (db : DB) : option Message :=
  let message := messages db !! id in
  let key := keys db !! id in
  match message, key with
  | Some m, Some k =>
      Some {| message := row_message m; key := key_key k;
              createdAt := row_createdAt m; expiresAt := row_expiresAt m;
              ipReader := row_ipReader m; ipWriter := row_ipWriter m;
              userAgent := row_userAgent m; id := row_id m |}
  | _, _ => None
  end.

(** [Messages.destroy]: [DELETE FROM keys WHERE id = $id]. *)
Definition destroy (id : jsstring) (db : DB) : DB :=
  {| messages := messages db; keys := delete id (keys db) |}.

(** [Messages.deleteExpiredKeys]: a key stays when [messages] has a row of
    the same id with [expiresAt > $date]. *)
Definition expires_after (now : jsstring) (m : option MessageRow) : bool :=
  match m with
  | Some m => text_ltb now (row_expiresAt m)
  | None => false
  end.

Definition deleteExpiredKeys (now : jsstring) (db : DB) : DB :=
  {| messages := messages db;
     keys := filter (fun row => expires_after now (messages db !! row.1) = true)
                    (keys db) |}.

(** [Messages.purgeExpired]; [t] is the clock read by [new Date()]. *)
Definition purgeExpired (t : Z) (db : DB) : DB :=
  let now := toISOString t in
  let db := deleteExpiredKeys now db in
  {| messages := filter (fun row => text_ltb (row_expiresAt row.2) now = false)
                        (messages db);
     keys := keys db |}.

Inductive Response : Type :=
  | Ok_text : jsstring -> Response
  | Ok_message : Message -> Response
  | Ok_id : jsstring -> Response
  | Error_404 : jsstring -> Response
  | Error_500 : Error -> Response.

(** The bodies of the two GET handlers, as in the single-table file. *)
Definition exists_ (id : jsstring) (db : DB) : bool :=
  match get id db with Some _ => true | None => false end.

Definition fetchAndConsume (id : jsstring) (db : DB) : option Message * DB :=
  let message := get id db in
  let db := destroy id db in
  (message, db).

Section Handlers.

Variable xss : jsstring -> jsstring.

Definition available (params_id : jsstring) (db : DB) : Response :=
  let id := xss params_id in
  if exists_ id db then Ok_text (lit "exist")
  else Error_404 (lit "Message not found").

Definition message_get (params_id : jsstring) (db : DB) : Response * DB :=
  let id := xss params_id in
  let '(message, db) := fetchAndConsume id db in
  (match message with
   | Some m => Ok_message m
   | None => Error_404 (lit "Message not found")
   end, db).

Definition message_post (src : entropy) (t_created t_now : Z)
    (body_message : jsstring) (headers : gmap jsstring jsstring) (db : DB)
    : Response * DB :=
  let message := xss body_message in
  match set src t_created t_now message headers db with
  | (Returned id, db) => (Ok_id id, db)
  | (Thrown e, db) => (Error_500 e, db)
  end.

End Handlers.

Definition fetchMessage (response : Response) : Single.View :=
  match response with
  | Ok_message body => Single.Shown (decryptMessage (message body) (key body))
  | _ => Single.Failed (lit "Failed to fetch the message. It might have expired.")
  end.

(** Every key belongs to a row of [messages]. *)
Definition keys_have_messages (db : DB) : Prop :=
  forall i k, keys db !! i = Some k -> is_Some (messages db !! i).

End Split.

(** ** Sample inputs *)

(** A random source and a sanitiser to run the handlers on: the bytes
    19, 26, 33, ... and the escaping of [<] and [>] as entities. *)
Definition sample_entropy : entropy :=
  fun i => default x00 (Byte.of_N (N.of_nat (7 * i + 19) mod 256)).

Definition escapeHtml (html : jsstring) : jsstring :=
  flat_map (fun c => if c =? 60 then lit "&lt;"
                     else if c =? 62 then lit "&gt;" else [c]) html.

(** A router to run the page with: the id itself when it has none of
    [/ ? # %], no route otherwise. *)
Definition sample_route (id : jsstring) : option jsstring :=
  if forallb (fun c => negb ((c =? 47) || (c =? 63) || (c =? 35) || (c =? 37))) id
  then Some id else None.

(** The id that [set] draws for a message of [n] code units, and the two
    stores after one message ["x"] was created at clock reading 0. *)
Definition sample_id (n : nat) : jsstring :=
  toString_hex (fst (randomBytes (snd (generateKey sample_entropy n)) 16)).

Definition sample_single_db : Single.DB :=
  snd (Single.set sample_entropy 0 0 (lit "x") ∅ ∅).

Definition sample_split_db : Split.DB :=
  snd (Split.set sample_entropy 0 0 (lit "x") ∅ Split.empty_db).

(** ** Sequences of calls, and the page that shows a message *)

(** A code unit of a hexadecimal text: a digit or a letter from [a] to [f]. *)
Definition hex_unit (c : Z) : Prop := 48 <= c <= 57 \/ 97 <= c <= 102.

(** The id that [set] draws from [src] for a message of [n] code units: the
    key takes the first [n] bytes, the id the 16 bytes after them. *)
Definition drawn_id (src : entropy) (n : nat) : jsstring :=
  toString_hex (fst (randomBytes (snd (generateKey src n)) 16)).

(** The calls a client of the [Messages] object of the single-table file can
    make, and the store after a sequence of them. *)
Inductive SingleCall : Type :=
  | SingleSet : entropy -> Z -> Z -> jsstring -> gmap jsstring jsstring -> SingleCall
  | SingleGet : jsstring -> SingleCall
  | SingleDestroy : jsstring -> SingleCall
  | SinglePurgeExpired : Z -> SingleCall.

Definition Single_exec (db : gmap jsstring Single.Message) (c : SingleCall)
    : gmap jsstring Single.Message :=
  match c with
  | SingleSet src t_created t_now message headers =>
      snd (Single.set src t_created t_now message headers db)
  | SingleGet _ => db
  | SingleDestroy id => Single.destroy id db
  | SinglePurgeExpired t => Single.purgeExpired t db
  end.

Definition Single_run (calls : list SingleCall) (db : gmap jsstring Single.Message)
    : gmap jsstring Single.Message :=
  fold_left Single_exec calls db.

(** What every row of the single-table store looks like. *)
Definition Single_row_ok (i : jsstring) (r : Single.Message) : Prop :=
  Single.id r = i /\ length i = 32%nat /\ Forall hex_unit i /\
  length (Single.key r) = (2 * length (Single.message r))%nat /\
  Forall hex_unit (Single.key r) /\
  wf_string (Single.message r) /\
  Single.ipReader r = None /\ Single.ipWriter r <> Some [].

Definition Single_rows_ok (db : gmap jsstring Single.Message) : Prop :=
  forall i r, db !! i = Some r -> Single_row_ok i r.

(** The same for the split-table file. *)
Inductive SplitCall : Type :=
  | SplitSet : entropy -> Z -> Z -> jsstring -> gmap jsstring jsstring -> SplitCall
  | SplitGet : jsstring -> SplitCall
  | SplitDestroy : jsstring -> SplitCall
  | SplitPurgeExpired : Z -> SplitCall.

Definition Split_exec (db : Split.DB) (c : SplitCall) : Split.DB :=
  match c with
  | SplitSet src t_created t_now message headers =>
      snd (Split.set src t_created t_now message headers db)
  | SplitGet _ => db
  | SplitDestroy id => Split.destroy id db
  | SplitPurgeExpired t => Split.purgeExpired t db
  end.

Definition Split_run (calls : list SplitCall) (db : Split.DB) : Split.DB :=
  fold_left Split_exec calls db.

(** Rows sit under their own id, and a key is as long as twice its
    message. *)
Definition Split_rows_ok (db : Split.DB) : Prop :=
  (forall i m, Split.messages db !! i = Some m -> Split.row_id m = i) /\
  (forall i k, Split.keys db !! i = Some k ->
     Split.key_id k = i /\
     exists m, Split.messages db !! i = Some m /\
               length (Split.key_key k) = (2 * length (Split.row_message m))%nat).

(** The component [MessageContent] of [frontend/src/App.tsx], lines 144-205,
    in front of the single-table server.  A request is answered before the
    effect runs again. *)
Module Page.

(** [useState] for [message], [error], [loading]; [useRef] for
    [hasFetched]. *)
Record State : Type := mkState {
  message : option jsstring;
  error : option jsstring;
  loading : bool;
  hasFetched : bool
}.

(** Lines 145-149. *)
Definition initial : State :=
  {| message := None; error := None; loading := true; hasFetched := false |}.

(** A value of type [string | null | undefined] as a condition. *)
Definition truthy (s : option jsstring) : bool :=
  match s with
  | Some (_ :: _) => true
  | _ => false
  end.

(** The page, the store of the server, and the ids of the GET requests sent
    so far, oldest first. *)
Record World : Type := mkWorld {
  page : State;
  server : gmap jsstring Single.Message;
  requests : list jsstring
}.

(** The first [params.id] of a list of runs that counts as true. *)
Fixpoint first_truthy (runs : list (option jsstring)) : option jsstring :=
  match runs with
  | [] => None
  | r :: rest => if truthy r then r else first_truthy rest
  end.

Section Server.

Variable xss : jsstring -> jsstring.

(** The page puts the id into the URL as it is, [/message/${id}]
    (lines 17-19).  [route id] is the [params.id] that the router of the
    server takes from that URL for [GET /message/:id], when the URL matches
    the route at all: for an id with [?] or [#] it is another text than
    the id. *)
Variable route : jsstring -> option jsstring.

(** [getMessageService], lines 17-19, answered by the server: by the
    handler, or with 404 when no route matches. *)
Definition getMessageService (id : jsstring) (db : gmap jsstring Single.Message)
    : Single.Response * gmap jsstring Single.Message :=
  match route id with
  | Some params_id => Single.message_get xss params_id db
  | None => (Single.Error_404 (lit "NOT_FOUND"), db)
  end.

(** [fetchMessage], lines 151-172: the request, then [setMessage] or
    [setError], then [setLoading(false)]. *)
Definition fetchMessage (id : jsstring) (w : World) : World :=
  let '(response, db) := getMessageService id (server w) in
  let st := page w in
  let st :=
    match Single.fetchMessage response with
    | Single.Shown decryptedMessage =>
        {| message := Some decryptedMessage; error := error st;
           loading := loading st; hasFetched := hasFetched st |}
    | Single.Failed text =>
        {| message := message st; error := Some text;
           loading := loading st; hasFetched := hasFetched st |}
    end in
  {| page := {| message := message st; error := error st;
                loading := false; hasFetched := hasFetched st |};
     server := db;
     requests := requests w ++ [id] |}.

(** The effect, lines 174-179, run with the [params.id] of the moment. *)
Definition effect (w : World) (params_id : option jsstring) : World :=
  if truthy params_id && negb (hasFetched (page w)) then
    let st := page w in
    let w := {| page := {| message := message st; error := error st;
                           loading := loading st; hasFetched := true |};
                server := server w; requests := requests w |} in
    fetchMessage (default [] params_id) w
  else w.

Definition effects (runs : list (option jsstring)) (w : World) : World :=
  fold_left effect runs w.

End Server.

(** What the page shows, lines 181-204. *)
Inductive Block : Type :=
  | Loading : Block
  | ErrorText : jsstring -> Block
  | MessagePanel : option jsstring -> Block.

Definition render (st : State) : list Block :=
  (if loading st then [Loading] else [])
  ++ (if truthy (error st) then [ErrorText (default [] (error st))] else [])
  ++ (if negb (loading st) && negb (truthy (error st))
      then [MessagePanel (message st)] else []).

End Page.

(** ** Properties of the codec *)

Lemma join_imap_chars (k : nat -> number) (s : jsstring) :
  join (imap (fun i char => fromCharCode (js_xor (charCodeAt char (Num 0)) (k i)))
             (split_chars s))
  = imap (fun i c => ToUint16 (js_xor (Num c) (k i))) s.
Proof.
  unfold join, split_chars.
  revert k. induction s as [|c s IH]; intros k; [reflexivity|].
  cbn [map imap concat app fromCharCode]. f_equal.
  apply (IH (k ∘ S)).
Qed.

Lemma encryptMessage_imap message key :
  encryptMessage message key = imap (xor_unit key) message.
Proof. apply (join_imap_chars (key_unit key)). Qed.

Lemma decryptMessage_imap text key :
  decryptMessage text key = imap (xor_unit key) text.
Proof. apply (join_imap_chars (key_unit key)). Qed.

Lemma ToInt32_code_unit c : code_unit c -> ToInt32 (Num c) = c.
Proof.
  unfold code_unit, ToInt32. intros Hc.
  rewrite Z.mod_small by lia. lia.
Qed.

Lemma mod_65536_code_unit z : code_unit (z mod 65536).
Proof. unfold code_unit. apply Z.mod_pos_bound. lia. Qed.

(** XOR with any 32-bit value [x], cut to 16 bits, undoes itself on a
    code unit. *)
Lemma lxor_mod_involutive c x :
  code_unit c -> Z.lxor (Z.lxor c x mod 65536) x mod 65536 = c.
Proof.
  intros Hc. change 65536 with (2 ^ 16).
  apply Z.bits_inj'. intros n Hn.
  destruct (Z_lt_ge_dec n 16) as [Hlt|Hge].
  - rewrite Z.mod_pow2_bits_low by lia.
    rewrite Z.lxor_spec, Z.mod_pow2_bits_low by lia.
    rewrite Z.lxor_spec. destruct (Z.testbit c n), (Z.testbit x n); reflexivity.
  - rewrite Z.mod_pow2_bits_high by lia.
    symmetry. destruct (Z.eq_dec c 0) as [->|Hnz]; [apply Z.bits_0|].
    apply Z.bits_above_log2; [unfold code_unit in Hc; lia|].
    assert (Z.log2 c < 16); [|lia].
    apply Z.log2_lt_pow2; unfold code_unit in Hc; lia.
Qed.

Lemma xor_unit_code_unit key i c : code_unit (xor_unit key i c).
Proof. apply mod_65536_code_unit. Qed.

Lemma xor_unit_involutive key i c :
  code_unit c -> xor_unit key i (xor_unit key i c) = c.
Proof.
  intros Hc. unfold xor_unit, js_xor, ToUint16.
  rewrite (ToInt32_code_unit _ (mod_65536_code_unit _)).
  rewrite (ToInt32_code_unit c Hc).
  apply lxor_mod_involutive, Hc.
Qed.

Lemma imap_xor_unit_involutive key (s : jsstring) :
  wf_string s -> imap (xor_unit key) (imap (xor_unit key) s) = s.
Proof.
  intros Hs. apply list_eq. intros i.
  rewrite !list_lookup_imap.
  destruct (s !! i) as [c|] eqn:Hi; [|reflexivity].
  cbn. f_equal. apply xor_unit_involutive.
  eapply Forall_lookup_1; eassumption.
Qed.

Lemma encryptMessage_wf message key : wf_string (encryptMessage message key).
Proof.
  rewrite encryptMessage_imap. apply Forall_lookup_2. intros i c.
  rewrite list_lookup_imap. destruct (message !! i); cbn; [|discriminate].
  intros [= <-]. apply xor_unit_code_unit.
Qed.

Lemma encryptMessage_length message key :
  length (encryptMessage message key) = length message.
Proof. rewrite encryptMessage_imap. apply length_imap. Qed.

(** Decoding undoes encoding under the same key, whatever the key. *)
Lemma decrypt_encrypt_any_key p k :
  wf_string p -> decryptMessage (encryptMessage p k) k = p.
Proof.
  intros Hp. rewrite decryptMessage_imap, encryptMessage_imap.
  apply imap_xor_unit_involutive, Hp.
Qed.

(** C2: for every plaintext [p] (a JavaScript string) and every key [k] at
    least as long as [p], decoding the encoding of [p] under [k] with the
    same key gives [p] again. *)
Theorem decode_encode_roundtrip (p k : jsstring) :
  wf_string p -> (length p <= length k)%nat ->
  decryptMessage (encryptMessage p k) k = p.
Proof. intros Hp _. apply decrypt_encrypt_any_key, Hp. Qed.

(** The empty plaintext, with the key the store generates for it. *)
Lemma decode_encode_empty : decryptMessage (encryptMessage [] []) [] = [].
Proof. reflexivity. Qed.

Lemma decode_encode_roundtrip_witness :
  wf_string (lit "hello") /\
  (length (lit "hello") <= length (lit "3fa9c07b1e"))%nat /\
  decryptMessage (encryptMessage (lit "hello") (lit "3fa9c07b1e")) (lit "3fa9c07b1e")
  = lit "hello".
Proof.
  assert (Hwf : wf_string (lit "hello")).
  { repeat constructor; unfold code_unit; cbn; lia. }
  assert (Hlen : (length (lit "hello") <= length (lit "3fa9c07b1e"))%nat).
  { cbn. lia. }
  split; [exact Hwf|]. split; [exact Hlen|].
  exact (decode_encode_roundtrip (lit "hello") (lit "3fa9c07b1e") Hwf Hlen).
Defined.

(** ** The random key and id *)

Lemma hex_byte_length b : length (hex_byte b) = 2%nat.
Proof. reflexivity. Qed.

Lemma toString_hex_length bs : length (toString_hex bs) = (2 * length bs)%nat.
Proof.
  unfold toString_hex. induction bs as [|b bs IH]; [reflexivity|].
  cbn [map concat]. rewrite length_app, IH, hex_byte_length. cbn [length]. lia.
Qed.

Lemma randomBytes_length src n : length (fst (randomBytes src n)) = n.
Proof. unfold randomBytes. cbn [fst]. rewrite length_map. apply length_seq. Qed.

Lemma generateKey_length src n :
  length (fst (generateKey src n)) = (2 * n)%nat.
Proof.
  unfold generateKey. destruct (randomBytes src n) as [bs src'] eqn:E.
  cbn [fst]. rewrite toString_hex_length.
  change bs with (fst (bs, src')). rewrite <- E. now rewrite randomBytes_length.
Qed.

(** ** The stored text

    What the TEXT column does to the encoded message: nothing, when the
    message has no surrogate on its own. *)

Lemma lxor_code_unit a b : code_unit a -> code_unit b -> code_unit (Z.lxor a b).
Proof.
  unfold code_unit. intros Ha Hb.
  assert (Hnn : 0 <= Z.lxor a b) by (apply Z.lxor_nonneg; lia).
  split; [exact Hnn|].
  destruct (Z.eq_dec (Z.lxor a b) 0) as [->|Hnz]; [lia|].
  assert (Hlog : forall v, 0 <= v < 65536 -> Z.log2 v < 16).
  { intros v Hv. destruct (Z.eq_dec v 0) as [->|]; [cbn; lia|].
    apply (proj1 (Z.log2_lt_pow2 v 16 ltac:(lia))). lia. }
  pose proof (Z.log2_lxor a b ltac:(lia) ltac:(lia)) as Hl.
  pose proof (Hlog a Ha). pose proof (Hlog b Hb).
  change 65536 with (2 ^ 16).
  apply (proj2 (Z.log2_lt_pow2 (Z.lxor a b) 16 ltac:(lia))). lia.
Qed.

(** With an empty key there is nothing to combine with. *)
Lemma key_unit_empty i : key_unit [] i = NaN.
Proof. reflexivity. Qed.

(** With a key that is not empty, position [i] takes the unit at [i]
    modulo the length of the key. *)
Lemma key_unit_cyclic (k : jsstring) (i : nat) :
  k <> [] ->
  exists x, k !! (i mod length k)%nat = Some x /\ key_unit k i = Num x.
Proof.
  intros Hk. assert (Hlen : (0 < length k)%nat) by (destruct k; [congruence|cbn; lia]).
  assert (Hlt : (i mod length k < length k)%nat) by (apply Nat.mod_upper_bound; lia).
  destruct (lookup_lt_is_Some_2 k _ Hlt) as [x Hx].
  exists x. split; [exact Hx|].
  unfold key_unit, js_rem, js_length, charCodeAt.
  rewrite (proj2 (Z.eqb_neq _ 0)) by lia. cbn [ToIntegerOrInfinity].
  assert (Hrem : Z.rem (Z.of_nat i) (Z.of_nat (length k)) = Z.of_nat (i mod length k)).
  { rewrite Z.rem_mod_nonneg by lia. now rewrite Nat2Z.inj_mod. }
  rewrite Hrem, Nat2Z.id.
  rewrite (proj2 (Z.ltb_ge _ 0)) by lia.
  rewrite (proj2 (Z.leb_gt _ _)) by lia. cbn. now rewrite Hx.
Qed.

Lemma xor_unit_cyclic (k : jsstring) (i : nat) (c : Z) :
  k <> [] -> wf_string k -> code_unit c ->
  exists x, k !! (i mod length k)%nat = Some x /\ xor_unit k i c = Z.lxor c x.
Proof.
  intros Hk Hwf Hc. destruct (key_unit_cyclic k i Hk) as (x & Hx & Hu).
  exists x. split; [exact Hx|].
  assert (Hxu : code_unit x) by (eapply Forall_lookup_1; eassumption).
  unfold xor_unit, js_xor, ToUint16. rewrite Hu.
  rewrite !ToInt32_code_unit by assumption.
  apply Z.mod_small. apply lxor_code_unit; assumption.
Qed.

Lemma xor_unit_empty_key i c : code_unit c -> xor_unit [] i c = c.
Proof.
  intros Hc. unfold xor_unit, js_xor, ToUint16. rewrite key_unit_empty.
  rewrite ToInt32_code_unit by assumption. cbn [ToInt32].
  rewrite Z.lxor_0_r. apply Z.mod_small, Hc.
Qed.

Lemma hex_digit_hex_unit n : 0 <= n < 16 -> hex_unit (hex_digit n).
Proof.
  unfold hex_unit, hex_digit. intros Hn.
  destruct (Z.ltb_spec n 10); lia.
Qed.

Lemma byte_to_Z_range b : 0 <= Z.of_N (Byte.to_N b) < 256.
Proof. pose proof (Byte.to_N_bounded b). lia. Qed.

Lemma hex_byte_hex_units b : Forall hex_unit (hex_byte b).
Proof.
  unfold hex_byte. pose proof (byte_to_Z_range b) as Hb.
  cbv zeta. apply Forall_cons. split; [|apply Forall_cons; split; [|constructor]];
    apply hex_digit_hex_unit; Z.div_mod_to_equations; lia.
Qed.

Lemma toString_hex_hex_units bs : Forall hex_unit (toString_hex bs).
Proof.
  unfold toString_hex. induction bs as [|b bs IH]; [constructor|].
  cbn [map concat]. apply Forall_app. split; [apply hex_byte_hex_units|exact IH].
Qed.

Lemma hex_unit_code_unit c : hex_unit c -> code_unit c.
Proof. unfold hex_unit, code_unit. lia. Qed.

Lemma generateKey_hex_units src n : Forall hex_unit (fst (generateKey src n)).
Proof.
  unfold generateKey. destruct (randomBytes src n). apply toString_hex_hex_units.
Qed.

Lemma lxor_keeps_high_bits c x : 0 <= c -> 0 <= x < 128 -> Z.lxor c x / 128 = c / 128.
Proof.
  intros Hc Hx. change 128 with (2 ^ 7).
  rewrite <- !Z.shiftr_div_pow2 by lia. rewrite Z.shiftr_lxor.
  rewrite (Z.shiftr_div_pow2 x) by lia.
  rewrite (Z.div_small x) by (change (2 ^ 7) with 128; lia).
  apply Z.lxor_0_r.
Qed.

Lemma list_ind_pairs {A} (P : list A -> Prop) :
  P [] -> (forall a, P [a]) ->
  (forall a b l, P l -> P (b :: l) -> P (a :: b :: l)) ->
  forall l, P l.
Proof.
  intros H0 H1 H2 l.
  assert (H : P l /\ forall a, P (a :: l)); [|exact (proj1 H)].
  induction l as [|b l [IH1 IH2]]; [split; [exact H0|exact H1]|].
  split; [apply IH2|]. intros a. apply H2; [exact IH1|apply IH2].
Qed.

Lemma sqlite_text_cons2 a b l :
  sqlite_text (a :: b :: l) =
  if is_high_surrogate a then
    if is_low_surrogate b then a :: b :: sqlite_text l
    else 65533 :: sqlite_text (b :: l)
  else if is_low_surrogate a then 65533 :: sqlite_text (b :: l)
  else a :: sqlite_text (b :: l).
Proof. reflexivity. Qed.

Lemma isWellFormed_cons2 a b l :
  isWellFormed (a :: b :: l) =
  if is_high_surrogate a then is_low_surrogate b && isWellFormed l
  else negb (is_low_surrogate a) && isWellFormed (b :: l).
Proof. reflexivity. Qed.

Lemma sqlite_text_length s : length (sqlite_text s) = length s.
Proof.
  induction s as [|a|a b l IH1 IH2] using list_ind_pairs; [reflexivity| |].
  - cbn. destruct (is_high_surrogate a), (is_low_surrogate a); reflexivity.
  - rewrite sqlite_text_cons2.
    destruct (is_high_surrogate a).
    + destruct (is_low_surrogate b); cbn [length]; [now rewrite IH1|now rewrite IH2].
    + destruct (is_low_surrogate a); cbn [length]; now rewrite IH2.
Qed.

Lemma sqlite_text_wf s : wf_string s -> wf_string (sqlite_text s).
Proof.
  assert (Hr : code_unit 65533) by (unfold code_unit; lia).
  induction s as [|a|a b l IH1 IH2] using list_ind_pairs; intros Hwf.
  - constructor.
  - inversion Hwf as [|? ? Ha _]; subst.
    cbn. destruct (is_high_surrogate a), (is_low_surrogate a);
      (apply Forall_cons; split; [first [exact Hr|exact Ha]|constructor]).
  - inversion Hwf as [|? ? Ha Hbl]; subst. inversion Hbl as [|? ? Hb Hl]; subst.
    rewrite sqlite_text_cons2. destruct (is_high_surrogate a).
    + destruct (is_low_surrogate b).
      * constructor; [exact Ha|]. constructor; [exact Hb|]. now apply IH1.
      * constructor; [exact Hr|]. now apply IH2.
    + destruct (is_low_surrogate a); constructor; try assumption; now apply IH2.
Qed.

Lemma sqlite_text_well_formed s : isWellFormed s = true -> sqlite_text s = s.
Proof.
  induction s as [|a|a b l IH1 IH2] using list_ind_pairs; [reflexivity| |].
  - cbn. destruct (is_high_surrogate a); [discriminate|].
    now destruct (is_low_surrogate a).
  - rewrite sqlite_text_cons2, isWellFormed_cons2. destruct (is_high_surrogate a).
    + destruct (is_low_surrogate b); [|discriminate]. cbn [andb].
      intros H. now rewrite IH1.
    + destruct (is_low_surrogate a); [discriminate|]. cbn [negb andb].
      intros H. now rewrite IH2.
Qed.

Lemma isWellFormed_same_class s s' :
  Forall2 same_class s s' -> isWellFormed s' = isWellFormed s.
Proof.
  revert s'.
  induction s as [|a|a b l IH1 IH2] using list_ind_pairs; intros s' H.
  - inversion H. reflexivity.
  - inversion H as [|? a' ? ? [Hh Hl] Hrest]; subst. inversion Hrest; subst.
    cbn. now rewrite Hh, Hl.
  - inversion H as [|? a' ? t1 [Hh Hl] Hrest]; subst.
    inversion Hrest as [|? b' ? t2 [Hh' Hl'] Hrest']; subst.
    rewrite !isWellFormed_cons2. rewrite <- Hh, <- Hl.
    destruct (is_high_surrogate a).
    + now rewrite <- Hl', (IH1 _ Hrest').
    + f_equal. exact (IH2 _ Hrest).
Qed.

Lemma same_class_high_bits c e : e / 128 = c / 128 -> same_class c e.
Proof.
  intros H. unfold same_class, is_high_surrogate, is_low_surrogate.
  assert (forall lo hi, lo mod 128 = 0 -> (hi + 1) mod 128 = 0 ->
            (lo <=? c) && (c <=? hi) = (lo <=? e) && (e <=? hi)) as Hrange.
  { intros lo hi Hlo Hhi.
    destruct (Z.leb_spec lo c), (Z.leb_spec c hi), (Z.leb_spec lo e), (Z.leb_spec e hi);
      try reflexivity; exfalso; Z.div_mod_to_equations; lia. }
  split; apply Hrange; reflexivity.
Qed.

Lemma Forall2_imap_same {A} (R : A -> A -> Prop) (f : nat -> A -> A) (P : A -> Prop) l :
  Forall P l -> (forall i c, P c -> R c (f i c)) -> Forall2 R l (imap f l).
Proof.
  revert f. induction l as [|c l IH]; intros f Hl Hf; [constructor|].
  inversion Hl; subst. cbn [imap]. constructor; [now apply Hf|].
  apply IH; [assumption|]. intros i c'. apply Hf.
Qed.

Lemma xor_unit_hex_key_high_bits k i c :
  Forall hex_unit k -> code_unit c -> xor_unit k i c / 128 = c / 128.
Proof.
  intros Hk Hc. destruct k as [|x0 k'] eqn:Ek.
  - now rewrite xor_unit_empty_key.
  - rewrite <- Ek in *. assert (Hne : k <> []) by (rewrite Ek; discriminate).
    assert (Hwf : wf_string k).
    { eapply Forall_impl; [exact Hk|]. intros ?. apply hex_unit_code_unit. }
    destruct (xor_unit_cyclic k i c Hne Hwf Hc) as (x & Hx & ->).
    pose proof (Forall_lookup_1 _ _ _ _ Hk Hx) as Hxh.
    apply lxor_keeps_high_bits; unfold hex_unit, code_unit in *; lia.
Qed.

(** The text encoded under a hexadecimal key has unpaired surrogates where
    the message has them, and only there. *)
Lemma encryptMessage_isWellFormed p k :
  wf_string p -> Forall hex_unit k ->
  isWellFormed (encryptMessage p k) = isWellFormed p.
Proof.
  intros Hp Hk. rewrite encryptMessage_imap.
  apply isWellFormed_same_class.
  apply (Forall2_imap_same same_class (xor_unit k) code_unit); [exact Hp|].
  intros i c Hc. apply same_class_high_bits.
  now apply xor_unit_hex_key_high_bits.
Qed.

Lemma sqlite_text_encryptMessage p k :
  wf_string p -> Forall hex_unit k -> isWellFormed p = true ->
  sqlite_text (encryptMessage p k) = encryptMessage p k.
Proof.
  intros Hp Hk Hw. apply sqlite_text_well_formed.
  now rewrite encryptMessage_isWellFormed.
Qed.

(** ** The single-table store *)

Lemma insert_row_Returned {R} i (row : R) table u table' :
  insert_row i row table = (Returned u, table') ->
  table !! i = None /\ table' = <[i := row]> table.
Proof.
  unfold insert_row. destruct (table !! i); [discriminate|].
  intros [= _ <-]. split; reflexivity.
Qed.

Lemma insert_row_Thrown {R} i (row : R) table e table' :
  insert_row i row table = (Thrown e, table') ->
  is_Some (table !! i) /\ table' = table.
Proof.
  unfold insert_row. destruct (table !! i) eqn:E; [|discriminate].
  intros [= _ <-]. split; [eexists|]; reflexivity.
Qed.

(** A case for each way an [INSERT] on [table] ends. *)
Ltac case_insert_row table E :=
  match goal with
  | |- context [insert_row ?j ?r table] =>
      destruct (insert_row j r table) as [[? | ?] ?] eqn:E
  end.

(** What a successful [set] wrote. *)
Lemma Single_set_Returned src t_created t_now p headers db i db' :
  Single.set src t_created t_now p headers db = (Returned i, db') ->
  db !! i = None /\
  exists row,
    db' = <[i := row]> db /\
    Single.key row = fst (generateKey src (length p)) /\
    Single.message row = sqlite_text (encryptMessage p (Single.key row)) /\
    Single.createdAt row = toISOString t_created /\
    Single.expiresAt row = toISOString (t_now + expires * 1000) /\
    Single.id row = i.
Proof.
  unfold Single.set.
  destruct (generateKey src (length p)) as [k src1].
  case_insert_row db E; [|discriminate].
  intros [= <- <-].
  apply insert_row_Returned in E as [Hfresh ->].
  split; [exact Hfresh|]. eexists. split; [reflexivity|].
  cbn. repeat split.
Qed.

Lemma Single_fetch_absent i db :
  Single.get i db = None -> Single.fetchAndConsume i db = (None, db).
Proof.
  unfold Single.fetchAndConsume, Single.get, Single.destroy.
  intros H. rewrite H. f_equal. apply delete_id. exact H.
Qed.

Lemma Single_fetch_repeatedly_absent n i db :
  Single.get i db = None ->
  Single.fetch_repeatedly n i db = (repeat None n, db).
Proof.
  intros H. induction n as [|n IH]; [reflexivity|].
  cbn [Single.fetch_repeatedly repeat].
  rewrite (Single_fetch_absent _ _ H), IH. reflexivity.
Qed.

Lemma Single_fetch_present i db r :
  Single.get i db = Some r ->
  Single.fetchAndConsume i db = (Some r, delete i db).
Proof.
  unfold Single.fetchAndConsume, Single.get, Single.destroy.
  intros ->. reflexivity.
Qed.

(** The text that [set] stores for a message without a surrogate on its own
    decodes to the message under the key that [set] stores. *)
Lemma stored_text_decodes (src : entropy) (p : jsstring) :
  wf_string p -> isWellFormed p = true ->
  decryptMessage (sqlite_text (encryptMessage p (fst (generateKey src (length p)))))
                 (fst (generateKey src (length p))) = p.
Proof.
  intros Hp Hw.
  rewrite sqlite_text_encryptMessage;
    [now apply decrypt_encrypt_any_key|exact Hp|apply generateKey_hex_units|exact Hw].
Qed.

(** The message that is one high surrogate, U+D83D without its partner: the
    key drawn is [13], the encoded unit D80C is a surrogate on its own, the
    column gives back U+FFFD, and the page decodes FFCC. *)
Lemma unpaired_surrogate_is_not_returned :
  wf_string [55357] /\
  exists i db' r db1,
    Single.set sample_entropy 0 0 [55357] ∅ ∅ = (Returned i, db') /\
    Single.fetchAndConsume i db' = (Some r, db1) /\
    Single.key r = lit "13" /\
    Single.message r = [65533] /\
    decryptMessage (Single.message r) (Single.key r) = [65484] /\
    Single.fetchMessage (Single.Ok_message r) = Single.Shown [65484] /\
    Single.Shown [65484] <> Single.Shown [55357].
Proof.
  split; [repeat constructor; unfold code_unit; lia|].
  eexists _, _, _, _. split; [vm_compute; reflexivity|].
  split; [vm_compute; reflexivity|].
  repeat split; try (vm_compute; reflexivity). discriminate.
Qed.

(** C1, as the code has it: after [set p] has returned the id [i], the first
    [fetchAndConsume i] finds the record and every later one finds nothing;
    decoding the record gives [p] when [p] has no surrogate on its own. *)
Theorem create_then_fetch_exactly_once
    src t_created t_now (p : jsstring) headers db i db' :
  wf_string p ->
  Single.set src t_created t_now p headers db = (Returned i, db') ->
  exists r db1,
    Single.fetchAndConsume i db' = (Some r, db1) /\
    (isWellFormed p = true ->
     decryptMessage (Single.message r) (Single.key r) = p /\
     Single.fetchMessage (Single.Ok_message r) = Single.Shown p) /\
    forall n, Single.fetch_repeatedly n i db1 = (repeat None n, db1).
Proof.
  intros Hp Hset.
  apply Single_set_Returned in Hset as (Hfresh & row & -> & Hk & Hm & _).
  exists row, (delete i (<[i := row]> db)).
  split; [|split].
  - apply Single_fetch_present. unfold Single.get. apply lookup_insert_eq.
  - intros Hw.
    assert (Hdec : decryptMessage (Single.message row) (Single.key row) = p).
    { rewrite Hm, Hk. now apply stored_text_decodes. }
    split; [exact Hdec|]. cbn -[decryptMessage]. now rewrite Hdec.
  - intros n. apply Single_fetch_repeatedly_absent.
    unfold Single.get. apply lookup_delete_eq.
Qed.

Lemma create_then_fetch_exactly_once_witness :
  wf_string (lit "hello") /\ isWellFormed (lit "hello") = true /\
  exists i db',
    Single.set sample_entropy 0 0 (lit "hello") ∅ ∅ = (Returned i, db') /\
    exists r db1,
      Single.fetchAndConsume i db' = (Some r, db1) /\
      (isWellFormed (lit "hello") = true ->
       decryptMessage (Single.message r) (Single.key r) = lit "hello" /\
       Single.fetchMessage (Single.Ok_message r) = Single.Shown (lit "hello")) /\
      forall n, Single.fetch_repeatedly n i db1 = (repeat None n, db1).
Proof.
  assert (Hwf : wf_string (lit "hello")).
  { repeat constructor; unfold code_unit; cbn; lia. }
  split; [exact Hwf|]. split; [reflexivity|].
  destruct (Single.set sample_entropy 0 0 (lit "hello") ∅ ∅) as [[i|e] db'] eqn:E;
    [|vm_compute in E; discriminate].
  exists i, db'. split; [reflexivity|].
  exact (create_then_fetch_exactly_once
           sample_entropy 0 0 (lit "hello") ∅ ∅ i db' Hwf E).
Defined.

(** X10: a consumed record leaves the single-table store as it was before
    the record was created. *)
Lemma Single_create_fetch_restores src t_created t_now p headers db i db' :
  Single.set src t_created t_now p headers db = (Returned i, db') ->
  snd (Single.fetchAndConsume i db') = db.
Proof.
  intros Hset. apply Single_set_Returned in Hset as (Hfresh & row & -> & _).
  cbn. unfold Single.destroy. rewrite delete_insert_eq. now apply delete_id.
Qed.

(** ** The split-table store *)

Lemma Split_set_Returned src t_created t_now p headers db i db' :
  Split.set src t_created t_now p headers db = (Returned i, db') ->
  Split.messages db !! i = None /\ Split.keys db !! i = None /\
  exists m k,
    Split.messages db' = <[i := m]> (Split.messages db) /\
    Split.keys db' = <[i := k]> (Split.keys db) /\
    Split.key_key k = fst (generateKey src (length p)) /\
    Split.row_message m = sqlite_text (encryptMessage p (Split.key_key k)) /\
    Split.row_createdAt m = toISOString t_created /\
    Split.row_expiresAt m = toISOString (t_now + expires * 1000) /\
    Split.row_id m = i.
Proof.
  unfold Split.set.
  destruct (generateKey src (length p)) as [k src1].
  case_insert_row (Split.messages db) E; [|discriminate].
  cbn [Split.keys Split.messages].
  case_insert_row (Split.keys db) E'; [|discriminate].
  intros [= <- <-].
  apply insert_row_Returned in E as [Hm ->].
  apply insert_row_Returned in E' as [Hk ->].
  split; [exact Hm|]. split; [exact Hk|].
  eexists _, _. cbn. repeat split.
Qed.

Lemma Split_get_Some i db r :
  Split.get i db = Some r ->
  exists m k, Split.messages db !! i = Some m /\ Split.keys db !! i = Some k /\
              Split.message r = Split.row_message m /\
              Split.key r = Split.key_key k.
Proof.
  unfold Split.get.
  destruct (Split.messages db !! i) as [m|]; [|discriminate].
  destruct (Split.keys db !! i) as [k|]; [|discriminate].
  intros [= <-]. exists m, k. cbn. repeat split.
Qed.

Lemma Split_get_no_key i db : Split.keys db !! i = None -> Split.get i db = None.
Proof.
  unfold Split.get. intros ->. now destruct (Split.messages db !! i).
Qed.

(** ** Consumption deletes the record *)

Lemma sample_single_db_created :
  Single.set sample_entropy 0 0 (lit "x") ∅ ∅ = (Returned (sample_id 1), sample_single_db).
Proof. vm_compute. reflexivity. Qed.

Lemma sample_split_db_created :
  Split.set sample_entropy 0 0 (lit "x") ∅ Split.empty_db
  = (Returned (sample_id 1), sample_split_db).
Proof. vm_compute. reflexivity. Qed.

(** In the split-table store a successful [fetchAndConsume] leaves the row
    of [messages] where it is: the store after one create and one
    successful fetch still holds the ciphertext under that id. *)
Lemma split_fetch_keeps_message_row :
  exists r db',
    Split.fetchAndConsume (sample_id 1) sample_split_db = (Some r, db') /\
    is_Some (Split.messages db' !! sample_id 1).
Proof.
  eexists _, _. split; [vm_compute; reflexivity|].
  vm_compute. eexists. reflexivity.
Qed.

(** C3, as the code has it: in the single-table store a successful
    [fetchAndConsume] deletes the row of that id and no other; in the
    split-table store it deletes the row of [keys] of that id and no other,
    the table [messages] stays as it is, and the record can no longer be
    read. *)
Theorem fetch_deletes_record_and_frames
    (i : jsstring) (db : gmap jsstring Single.Message) r db1
    (j : jsstring) (sdb : Split.DB) sr sdb1 :
  Single.fetchAndConsume i db = (Some r, db1) ->
  Split.fetchAndConsume j sdb = (Some sr, sdb1) ->
  (db1 !! i = None /\ forall i', i' ≠ i -> db1 !! i' = db !! i') /\
  (Split.keys sdb1 !! j = None /\
   (forall j', j' ≠ j -> Split.keys sdb1 !! j' = Split.keys sdb !! j') /\
   Split.messages sdb1 = Split.messages sdb /\
   Split.get j sdb1 = None).
Proof.
  unfold Single.fetchAndConsume, Split.fetchAndConsume.
  intros [= _ <-] [= _ <-]. split.
  - unfold Single.destroy. split; [apply lookup_delete_eq|].
    intros i' Hne. now apply lookup_delete_ne.
  - unfold Split.destroy. cbn [Split.keys Split.messages].
    split; [apply lookup_delete_eq|].
    split; [intros j' Hne; now apply lookup_delete_ne|].
    split; [reflexivity|].
    apply Split_get_no_key. cbn. apply lookup_delete_eq.
Qed.

Lemma fetch_deletes_record_and_frames_witness :
  exists r db1 sr sdb1,
    Single.fetchAndConsume (sample_id 1) sample_single_db = (Some r, db1) /\
    Split.fetchAndConsume (sample_id 1) sample_split_db = (Some sr, sdb1) /\
    (db1 !! sample_id 1 = None /\
     forall i', i' ≠ sample_id 1 -> db1 !! i' = sample_single_db !! i') /\
    (Split.keys sdb1 !! sample_id 1 = None /\
     (forall j', j' ≠ sample_id 1 ->
                 Split.keys sdb1 !! j' = Split.keys sample_split_db !! j') /\
     Split.messages sdb1 = Split.messages sample_split_db /\
     Split.get (sample_id 1) sdb1 = None).
Proof.
  destruct (Single.fetchAndConsume (sample_id 1) sample_single_db)
    as [[r|] db1] eqn:E1; [|vm_compute in E1; discriminate].
  destruct (Split.fetchAndConsume (sample_id 1) sample_split_db)
    as [[sr|] sdb1] eqn:E2; [|vm_compute in E2; discriminate].
  exists r, db1, sr, sdb1.
  split; [reflexivity|]. split; [reflexivity|].
  exact (fetch_deletes_record_and_frames _ _ _ _ _ _ _ _ E1 E2).
Defined.

(** ** The expiry sweep *)

Lemma text_ltb_irrefl a : text_ltb a a = false.
Proof.
  induction a as [|x a IH]; [reflexivity|].
  cbn. rewrite IH, Z.ltb_irrefl, Z.eqb_refl. reflexivity.
Qed.

Lemma text_ltb_asym a b : text_ltb a b = true -> text_ltb b a = false.
Proof.
  revert b. induction a as [|x a IH]; intros [|y b]; cbn; try easy.
  intros H. apply orb_true_iff in H as [H|H].
  - apply Z.ltb_lt in H.
    rewrite (proj2 (Z.ltb_ge y x)) by lia.
    rewrite (proj2 (Z.eqb_neq y x)) by lia. reflexivity.
  - apply andb_true_iff in H as [Hxy H]. apply Z.eqb_eq in Hxy. subst y.
    rewrite Z.ltb_irrefl, Z.eqb_refl. cbn. now apply IH.
Qed.

(** ** Timestamps as text

    The rows hold instants as text and the sweep compares text.  For the
    instants of the years 0000 to 9999, whose text has the fixed width of 24
    units, the order of the texts is the order of the instants. *)

Lemma DayFromYear_succ y : DayFromYear (y + 1) = DayFromYear y + DaysInYear y.
Proof.
  unfold DayFromYear, DaysInYear.
  destruct (y mod 4 =? 0) eqn:E4; cbn [negb];
  destruct (y mod 100 =? 0) eqn:E100; cbn [negb];
  destruct (y mod 400 =? 0) eqn:E400; cbn [negb];
  rewrite ?Z.eqb_eq, ?Z.eqb_neq in *; Z.div_mod_to_equations; lia.
Qed.

Lemma DayFromYear_mono y1 y2 : y1 <= y2 -> DayFromYear y1 + 365 * (y2 - y1) <= DayFromYear y2.
Proof. unfold DayFromYear. intros. Z.div_mod_to_equations. lia. Qed.

Lemma YearFromTime_spec t :
  DayFromYear (YearFromTime t) <= Day t < DayFromYear (YearFromTime t + 1).
Proof.
  unfold YearFromTime. generalize (Day t). intros d. cbv zeta.
  destruct (DayFromYear (1970 + d * 400 / 146097 + 1) <=? d) eqn:E1;
  [|destruct (DayFromYear (1970 + d * 400 / 146097) <=? d) eqn:E2];
  rewrite ?Z.leb_le, ?Z.leb_gt in *; unfold DayFromYear in *;
  Z.div_mod_to_equations; lia.
Qed.

Lemma YearFromTime_unique t y :
  DayFromYear y <= Day t < DayFromYear (y + 1) -> YearFromTime t = y.
Proof.
  intros Hy. pose proof (YearFromTime_spec t) as Hs.
  destruct (Z.lt_trichotomy (YearFromTime t) y) as [Hlt|[Heq|Hgt]]; [|exact Heq|].
  - pose proof (DayFromYear_mono (YearFromTime t + 1) y). lia.
  - pose proof (DayFromYear_mono (y + 1) (YearFromTime t)). lia.
Qed.

Lemma YearFromTime_mono t1 t2 :
  Day t1 <= Day t2 -> YearFromTime t1 <= YearFromTime t2.
Proof.
  intros Hd. pose proof (YearFromTime_spec t1). pose proof (YearFromTime_spec t2).
  destruct (Z_le_gt_dec (YearFromTime t1) (YearFromTime t2)) as [|Hgt]; [assumption|].
  pose proof (DayFromYear_mono (YearFromTime t2 + 1) (YearFromTime t1)). lia.
Qed.

Lemma Day_mono t1 t2 : t1 <= t2 -> Day t1 <= Day t2.
Proof. unfold Day, msPerDay. intros. Z.div_mod_to_equations. lia. Qed.

Lemma DaysInYear_cases y : DaysInYear y = 365 \/ DaysInYear y = 366.
Proof.
  unfold DaysInYear.
  repeat match goal with |- context [if ?b then _ else _] => destruct b end; lia.
Qed.

Lemma InLeapYear_cases t :
  InLeapYear t = DaysInYear (YearFromTime t) - 365 /\ 0 <= InLeapYear t <= 1.
Proof.
  unfold InLeapYear.
  destruct (DaysInYear_cases (YearFromTime t)) as [-> | ->]; cbn; lia.
Qed.

Lemma DayWithinYear_bound t : 0 <= DayWithinYear t < 365 + InLeapYear t.
Proof.
  unfold DayWithinYear. pose proof (YearFromTime_spec t) as Hs.
  rewrite DayFromYear_succ in Hs. pose proof (InLeapYear_cases t). lia.
Qed.

Lemma calendar_same_day t1 t2 :
  Day t1 = Day t2 ->
  YearFromTime t1 = YearFromTime t2 /\ MonthFromTime t1 = MonthFromTime t2 /\
  DateFromTime t1 = DateFromTime t2.
Proof.
  intros Hd.
  assert (Hy : YearFromTime t1 = YearFromTime t2) by (unfold YearFromTime; now rewrite Hd).
  assert (Hl : InLeapYear t1 = InLeapYear t2) by (unfold InLeapYear; now rewrite Hy).
  assert (Hw : DayWithinYear t1 = DayWithinYear t2) by (unfold DayWithinYear; now rewrite Hd, Hy).
  assert (Hm : MonthFromTime t1 = MonthFromTime t2) by (unfold MonthFromTime; now rewrite Hw, Hl).
  split; [exact Hy|]. split; [exact Hm|].
  unfold DateFromTime. now rewrite Hm, Hw, Hl.
Qed.

Lemma MonthFromTime_bound t : 0 <= MonthFromTime t <= 11.
Proof.
  unfold MonthFromTime. cbv zeta.
  repeat match goal with |- context [if ?b then _ else _] => destruct b end; lia.
Qed.

Lemma DateFromTime_bound t : 1 <= DateFromTime t <= 31.
Proof.
  pose proof (DayWithinYear_bound t) as Hw. pose proof (InLeapYear_cases t) as [_ Hl].
  unfold DateFromTime, MonthFromTime. cbv zeta.
  repeat match goal with
         | |- context [if ?a <? ?b then _ else _] => destruct (Z.ltb_spec a b)
         end; cbn; lia.
Qed.

Lemma calendar_lt t1 t2 :
  Day t1 < Day t2 ->
  YearFromTime t1 < YearFromTime t2 \/
  YearFromTime t1 = YearFromTime t2 /\
  (MonthFromTime t1 < MonthFromTime t2 \/
   MonthFromTime t1 = MonthFromTime t2 /\ DateFromTime t1 < DateFromTime t2).
Proof.
  intros Hd. pose proof (YearFromTime_mono t1 t2 ltac:(lia)) as Hy.
  destruct (Z.eq_dec (YearFromTime t1) (YearFromTime t2)) as [Heq|]; [right|left; lia].
  split; [exact Heq|].
  assert (Hl : InLeapYear t1 = InLeapYear t2) by (unfold InLeapYear; now rewrite Heq).
  assert (Hw : DayWithinYear t1 < DayWithinYear t2) by (unfold DayWithinYear; rewrite Heq; lia).
  pose proof (InLeapYear_cases t2) as [_ Hl2].
  unfold DateFromTime, MonthFromTime. cbv zeta. rewrite Hl.
  generalize dependent (DayWithinYear t1). generalize dependent (DayWithinYear t2).
  generalize dependent (InLeapYear t2). intros l _ Hl2 d2 d1 Hw.
  repeat match goal with
         | |- context [if ?a <? ?b then _ else _] => destruct (Z.ltb_spec a b)
         end; cbn; lia.
Qed.

Lemma clock_bounds t :
  0 <= HourFromTime t < 24 /\ 0 <= MinFromTime t < 60 /\
  0 <= SecFromTime t < 60 /\ 0 <= msFromTime t < 1000.
Proof.
  unfold HourFromTime, MinFromTime, SecFromTime, msFromTime.
  Z.div_mod_to_equations. lia.
Qed.

Lemma clock_lt t1 t2 :
  Day t1 = Day t2 -> t1 < t2 ->
  HourFromTime t1 < HourFromTime t2 \/
  HourFromTime t1 = HourFromTime t2 /\
  (MinFromTime t1 < MinFromTime t2 \/
   MinFromTime t1 = MinFromTime t2 /\
   (SecFromTime t1 < SecFromTime t2 \/
    SecFromTime t1 = SecFromTime t2 /\ msFromTime t1 < msFromTime t2)).
Proof.
  unfold Day, msPerDay, HourFromTime, MinFromTime, SecFromTime, msFromTime.
  intros Hd Hlt. Z.div_mod_to_equations. lia.
Qed.

Lemma digits_length w n : length (digits w n) = w.
Proof.
  revert n. induction w as [|w IH]; intros n; [reflexivity|].
  cbn [digits]. rewrite length_app, IH. cbn. lia.
Qed.

Lemma text_ltb_app_same a x y : text_ltb (a ++ x) (a ++ y) = text_ltb x y.
Proof.
  induction a as [|c a IH]; [reflexivity|].
  cbn. rewrite IH, Z.ltb_irrefl, Z.eqb_refl. reflexivity.
Qed.

Lemma text_ltb_app_lt a b x y :
  length a = length b -> text_ltb a b = true -> text_ltb (a ++ x) (b ++ y) = true.
Proof.
  revert b. induction a as [|c a IH]; intros [|d b]; cbn; try easy.
  intros [= Hlen] H. apply orb_true_iff in H as [H|H].
  - now rewrite H.
  - apply andb_true_iff in H as [-> H]. rewrite (IH b Hlen H).
    now rewrite orb_true_r.
Qed.

Lemma digits_lt w a b :
  0 <= a < b -> b < 10 ^ Z.of_nat w ->
  text_ltb (digits w a) (digits w b) = true.
Proof.
  revert a b. induction w as [|w IH]; intros a b Hab Hb.
  - cbn in Hb. lia.
  - rewrite Nat2Z.inj_succ, Z.pow_succ_r in Hb by lia.
    cbn [digits].
    destruct (Z.eq_dec (a / 10) (b / 10)) as [Heq|Hne].
    + rewrite Heq, text_ltb_app_same. cbn.
      assert (a mod 10 < b mod 10) by (Z.div_mod_to_equations; lia).
      rewrite (proj2 (Z.ltb_lt _ _)) by lia. reflexivity.
    + apply text_ltb_app_lt; [now rewrite !digits_length|].
      apply IH; Z.div_mod_to_equations; lia.
Qed.

Lemma year_string_range y : 0 <= y <= 9999 -> year_string y = digits 4 y.
Proof.
  intros Hy. unfold year_string.
  rewrite (proj2 (Z.leb_le 0 y)), (proj2 (Z.leb_le y 9999)) by lia. reflexivity.
Qed.

Lemma YearFromTime_range t :
  -62167219200000 <= t < 253402300800000 -> 0 <= YearFromTime t <= 9999.
Proof.
  intros Ht. pose proof (YearFromTime_spec t) as Hs.
  assert (Hd : DayFromYear 0 <= Day t < DayFromYear 10000).
  { unfold Day, msPerDay. change (DayFromYear 0) with (-719528).
    change (DayFromYear 10000) with 2932897. Z.div_mod_to_equations. lia. }
  split.
  - destruct (Z_le_gt_dec 0 (YearFromTime t)) as [|Hneg]; [assumption|].
    pose proof (DayFromYear_mono (YearFromTime t + 1) 0). lia.
  - destruct (Z_le_gt_dec (YearFromTime t) 9999) as [|Hbig]; [assumption|].
    pose proof (DayFromYear_mono 10000 (YearFromTime t)). lia.
Qed.

Lemma toISOString_lt t1 t2 :
  -62167219200000 <= t1 -> t1 < t2 -> t2 < 253402300800000 ->
  text_ltb (toISOString t1) (toISOString t2) = true.
Proof.
  intros Hlo Hlt Hhi.
  pose proof (YearFromTime_range t1 ltac:(lia)) as Hy1.
  pose proof (YearFromTime_range t2 ltac:(lia)) as Hy2.
  pose proof (MonthFromTime_bound t1). pose proof (MonthFromTime_bound t2).
  pose proof (DateFromTime_bound t1). pose proof (DateFromTime_bound t2).
  pose proof (clock_bounds t1) as (? & ? & ? & ?).
  pose proof (clock_bounds t2) as (? & ? & ? & ?).
  unfold toISOString. rewrite !year_string_range by assumption.
  assert (Hfield : forall w a b x y, 0 <= a < b -> b < 10 ^ Z.of_nat w ->
            text_ltb (digits w a ++ x) (digits w b ++ y) = true).
  { intros. apply text_ltb_app_lt; [now rewrite !digits_length|now apply digits_lt]. }
  pose proof (Day_mono t1 t2 ltac:(lia)) as Hd.
  destruct (Z.eq_dec (Day t1) (Day t2)) as [Heq|Hne].
  - destruct (calendar_same_day _ _ Heq) as (-> & -> & ->).
    do 3 (rewrite text_ltb_app_same; rewrite (text_ltb_app_same (lit _))).
    destruct (clock_lt _ _ Heq Hlt) as [Hh|[-> [Hm|[-> [Hs|[-> Hms]]]]]];
      repeat (rewrite text_ltb_app_same; rewrite (text_ltb_app_same (lit _)));
      apply Hfield; cbn; lia.
  - destruct (calendar_lt t1 t2 ltac:(lia)) as [Hy|[-> [Hm|[-> Hdt]]]];
      repeat (rewrite text_ltb_app_same; rewrite (text_ltb_app_same (lit _)));
      apply Hfield; cbn; lia.
Qed.

Lemma toISOString_ltb t1 t2 :
  -62167219200000 <= t1 < 253402300800000 ->
  -62167219200000 <= t2 < 253402300800000 ->
  text_ltb (toISOString t1) (toISOString t2) = (t1 <? t2).
Proof.
  intros H1 H2. destruct (Z.ltb_spec t1 t2) as [Hlt|Hge].
  - apply toISOString_lt; lia.
  - destruct (Z.eq_dec t1 t2) as [->|Hne]; [apply text_ltb_irrefl|].
    apply text_ltb_asym, toISOString_lt; lia.
Qed.

Lemma Single_purgeExpired_lookup (t : Z) (db : gmap jsstring Single.Message) i :
  Single.purgeExpired t db !! i =
  match db !! i with
  | Some r => if text_ltb (Single.expiresAt r) (toISOString t) then None else Some r
  | None => None
  end.
Proof.
  unfold Single.purgeExpired. rewrite map_lookup_filter.
  destruct (db !! i) as [r|]; [|reflexivity]. cbn.
  destruct (text_ltb (Single.expiresAt r) (toISOString t)) eqn:E.
  - now rewrite option_guard_False.
  - now rewrite option_guard_True.
Qed.

(** X11: the sweep of the single-table store: a row goes exactly when its
    [expiresAt] is smaller than the [now] of the sweep, every other row
    stays as it is, and a second sweep with the same clock reading changes
    nothing. *)
Lemma Single_purgeExpired_spec (t : Z) (db : gmap jsstring Single.Message) :
  (forall i r, db !! i = Some r ->
               text_ltb (Single.expiresAt r) (toISOString t) = true ->
               Single.purgeExpired t db !! i = None) /\
  (forall i r, db !! i = Some r ->
               text_ltb (Single.expiresAt r) (toISOString t) = false ->
               Single.purgeExpired t db !! i = Some r) /\
  (forall i, db !! i = None -> Single.purgeExpired t db !! i = None) /\
  Single.purgeExpired t (Single.purgeExpired t db) = Single.purgeExpired t db.
Proof.
  repeat split.
  - intros i r Hi He. now rewrite Single_purgeExpired_lookup, Hi, He.
  - intros i r Hi He. now rewrite Single_purgeExpired_lookup, Hi, He.
  - intros i Hi. now rewrite Single_purgeExpired_lookup, Hi.
  - apply map_eq. intros i. rewrite !Single_purgeExpired_lookup.
    destruct (db !! i) as [r|]; [|reflexivity].
    destruct (text_ltb (Single.expiresAt r) (toISOString t)) eqn:E;
      [reflexivity|now rewrite E].
Qed.

Lemma Split_purgeExpired_messages t db i :
  Split.messages (Split.purgeExpired t db) !! i =
  match Split.messages db !! i with
  | Some m => if text_ltb (Split.row_expiresAt m) (toISOString t) then None else Some m
  | None => None
  end.
Proof.
  unfold Split.purgeExpired, Split.deleteExpiredKeys. cbn [Split.messages].
  rewrite map_lookup_filter.
  destruct (Split.messages db !! i) as [m|]; [|reflexivity]. cbn.
  destruct (text_ltb (Split.row_expiresAt m) (toISOString t)) eqn:E.
  - now rewrite option_guard_False.
  - now rewrite option_guard_True.
Qed.

Lemma Split_purgeExpired_keys t db i :
  Split.keys (Split.purgeExpired t db) !! i =
  match Split.keys db !! i with
  | Some k => if Split.expires_after (toISOString t) (Split.messages db !! i)
              then Some k else None
  | None => None
  end.
Proof.
  unfold Split.purgeExpired, Split.deleteExpiredKeys. cbn [Split.keys].
  rewrite map_lookup_filter.
  destruct (Split.keys db !! i) as [k|]; [|reflexivity]. cbn.
  destruct (Split.expires_after (toISOString t) (Split.messages db !! i)) eqn:E.
  - now rewrite option_guard_True.
  - rewrite option_guard_False; [reflexivity|]. congruence.
Qed.

Lemma Split_DB_eq (a b : Split.DB) :
  Split.messages a = Split.messages b -> Split.keys a = Split.keys b -> a = b.
Proof. destruct a, b. cbn. intros -> ->. reflexivity. Qed.

(** X20: also in the split-table store a second sweep with the same clock
    reading changes nothing. *)
Lemma Split_purgeExpired_idempotent t db :
  Split.purgeExpired t (Split.purgeExpired t db) = Split.purgeExpired t db.
Proof.
  apply Split_DB_eq; apply map_eq; intros i.
  - rewrite !Split_purgeExpired_messages.
    destruct (Split.messages db !! i) as [m|]; [|reflexivity].
    destruct (text_ltb (Split.row_expiresAt m) (toISOString t)) eqn:E;
      [reflexivity|now rewrite E].
  - rewrite !Split_purgeExpired_keys, Split_purgeExpired_messages.
    destruct (Split.keys db !! i) as [k|]; [|reflexivity].
    destruct (Split.messages db !! i) as [m|]; cbn; [|reflexivity].
    destruct (text_ltb (toISOString t) (Split.row_expiresAt m)) eqn:E;
      [|reflexivity].
    rewrite (text_ltb_asym _ _ E). cbn. now rewrite E.
Qed.

(** C6 on the split-table store, at a record that expires at the very
    instant of the sweep: the record was created at clock reading 0, so its
    [expiresAt] is the text of 86400000; the sweep at clock reading 86400000
    does not find [expiresAt < now], keeps the row of [messages], and yet
    deletes the row of [keys], after which the record cannot be read. *)
Theorem split_purge_at_expiry_instant_drops_key :
  let i := sample_id 1 in
  let db' := Split.purgeExpired 86400000 sample_split_db in
  (exists m, Split.messages sample_split_db !! i = Some m /\
             text_ltb (Split.row_expiresAt m) (toISOString 86400000) = false /\
             Split.messages db' !! i = Some m) /\
  is_Some (Split.get i sample_split_db) /\
  Split.keys db' !! i = None /\
  Split.get i db' = None.
Proof.
  cbv zeta. split; [|split; [|split]].
  - eexists. split; [vm_compute; reflexivity|]. split; vm_compute; reflexivity.
  - vm_compute. eexists. reflexivity.
  - vm_compute. reflexivity.
  - vm_compute. reflexivity.
Qed.

(** ** The presence probe *)

(** A record created at clock reading 0 expires at 86400000.  At clock
    reading 90000000, 25 hours after creation, its [expiresAt] is smaller
    than the text of the clock; no sweep has run, and the probe still
    answers [exist]. *)
Lemma expired_unpurged_record_still_exists :
  exists row,
    sample_single_db !! sample_id 1 = Some row /\
    Single.expiresAt row = toISOString 86400000 /\
    text_ltb (Single.expiresAt row) (toISOString 90000000) = true /\
    Single.exists_ (sample_id 1) sample_single_db = true /\
    Single.available escapeHtml (sample_id 1) sample_single_db
    = Single.Ok_text (lit "exist").
Proof.
  eexists. split; [vm_compute; reflexivity|].
  repeat split; vm_compute; reflexivity.
Qed.

(** After a sweep, the probe finds a created record unless the [now] of the
    sweep is greater than its [expiresAt]. *)
Lemma Single_exists_after_purge
    (src : entropy) (t_created t_now : Z) (p : jsstring)
    (headers : gmap jsstring jsstring) (db : gmap jsstring Single.Message)
    (i : jsstring) (db' : gmap jsstring Single.Message) (t : Z) :
  Single.set src t_created t_now p headers db = (Returned i, db') ->
  Single.exists_ i (Single.purgeExpired t db')
  = negb (text_ltb (toISOString (t_now + expires * 1000)) (toISOString t)).
Proof.
  intros Hset.
  apply Single_set_Returned in Hset as (Hfresh & row & -> & _ & _ & _ & He & _).
  unfold Single.exists_, Single.get.
  rewrite Single_purgeExpired_lookup, lookup_insert_eq, He.
  now destruct (text_ltb _ _).
Qed.

(** C5, as the code has it: the probe answers true after [set] and false
    after the record was consumed; it never looks at the clock, so the
    passing of [expiresAt] alone changes nothing, and the answer turns false
    through expiry only when a sweep runs whose [now] is greater than the
    record's [expiresAt]. *)
Theorem exists_after_create_consume_purge
    (src : entropy) (t_created t_now : Z) (p : jsstring)
    (headers : gmap jsstring jsstring) (db : gmap jsstring Single.Message)
    (i : jsstring) (db' : gmap jsstring Single.Message) :
  Single.set src t_created t_now p headers db = (Returned i, db') ->
  Single.exists_ i db' = true /\
  Single.exists_ i (snd (Single.fetchAndConsume i db')) = false /\
  forall t,
    Single.exists_ i (Single.purgeExpired t db')
    = negb (text_ltb (toISOString (t_now + expires * 1000)) (toISOString t)).
Proof.
  intros Hset. split; [|split].
  - apply Single_set_Returned in Hset as (_ & row & -> & _).
    unfold Single.exists_, Single.get. now rewrite lookup_insert_eq.
  - cbn. unfold Single.exists_, Single.get, Single.destroy.
    now rewrite lookup_delete_eq.
  - intros t. exact (Single_exists_after_purge _ _ _ _ _ _ _ _ t Hset).
Qed.

Lemma exists_after_create_consume_purge_witness :
  Single.exists_ (sample_id 1) sample_single_db = true /\
  Single.exists_ (sample_id 1)
    (snd (Single.fetchAndConsume (sample_id 1) sample_single_db)) = false /\
  forall t,
    Single.exists_ (sample_id 1) (Single.purgeExpired t sample_single_db)
    = negb (text_ltb (toISOString (0 + expires * 1000)) (toISOString t)).
Proof.
  apply (exists_after_create_consume_purge sample_entropy 0 0 (lit "x") ∅ ∅).
  vm_compute. reflexivity.
Defined.

(** ** Absent records *)

(** C7: when the store has no record under the id the handlers look up,
    [GET /message/:id] and [GET /available/:id] both answer 404 and the
    store after the call is the store before it. *)
Theorem not_found_leaves_store_unchanged
    (xss : jsstring -> jsstring) (params_id : jsstring)
    (db : gmap jsstring Single.Message) :
  Single.get (xss params_id) db = None ->
  Single.message_get xss params_id db
  = (Single.Error_404 (lit "Message not found"), db) /\
  Single.available xss params_id db = Single.Error_404 (lit "Message not found") /\
  Single.fetchAndConsume (xss params_id) db = (None, db) /\
  Single.exists_ (xss params_id) db = false.
Proof.
  intros H. unfold Single.message_get, Single.available, Single.exists_.
  rewrite (Single_fetch_absent _ _ H), H. repeat split.
Qed.

Lemma not_found_leaves_store_unchanged_witness :
  Single.get (escapeHtml (lit "0123abcd")) sample_single_db = None /\
  Single.message_get escapeHtml (lit "0123abcd") sample_single_db
  = (Single.Error_404 (lit "Message not found"), sample_single_db) /\
  Single.available escapeHtml (lit "0123abcd") sample_single_db
  = Single.Error_404 (lit "Message not found") /\
  Single.fetchAndConsume (escapeHtml (lit "0123abcd")) sample_single_db
  = (None, sample_single_db) /\
  Single.exists_ (escapeHtml (lit "0123abcd")) sample_single_db = false.
Proof.
  assert (H : Single.get (escapeHtml (lit "0123abcd")) sample_single_db = None)
    by (vm_compute; reflexivity).
  split; [exact H|].
  exact (not_found_leaves_store_unchanged escapeHtml (lit "0123abcd")
           sample_single_db H).
Defined.

(** The same on the split-table store, for an id without a row of [keys]
    (never created, consumed, or swept). *)
Lemma Split_not_found_leaves_store_unchanged
    (xss : jsstring -> jsstring) (params_id : jsstring) (db : Split.DB) :
  Split.keys db !! xss params_id = None ->
  Split.message_get xss params_id db
  = (Split.Error_404 (lit "Message not found"), db) /\
  Split.available xss params_id db = Split.Error_404 (lit "Message not found").
Proof.
  intros H. unfold Split.message_get, Split.available, Split.exists_,
    Split.fetchAndConsume.
  rewrite (Split_get_no_key _ _ H). split; [|reflexivity].
  f_equal. unfold Split.destroy. rewrite delete_id by exact H. now destruct db.
Qed.

(** ** The key and the timestamps of a created record *)

(** The key stored for the one-unit message ["x"] has two code units. *)
Lemma key_of_one_unit_message_has_two_units :
  exists row,
    sample_single_db !! sample_id 1 = Some row /\
    length (lit "x") = 1%nat /\
    length (Single.key row) = 2%nat /\
    length (Single.key row) <> length (lit "x").
Proof.
  eexists. split; [vm_compute; reflexivity|].
  split; [reflexivity|]. split; [reflexivity|]. vm_compute. discriminate.
Qed.

(** C8, as the code has it: the key that [set] stores is the hexadecimal
    text of as many random bytes as the message has code units, so it is
    twice as long as the message. *)
Theorem key_twice_as_long_as_message
    (src : entropy) (t_created t_now : Z) (p : jsstring)
    (headers : gmap jsstring jsstring) (db : gmap jsstring Single.Message)
    (i : jsstring) (db' : gmap jsstring Single.Message) :
  Single.set src t_created t_now p headers db = (Returned i, db') ->
  exists row,
    db' !! i = Some row /\
    length (Single.key row) = (2 * length p)%nat.
Proof.
  intros Hset.
  apply Single_set_Returned in Hset as (_ & row & -> & Hk & _).
  exists row. split; [apply lookup_insert_eq|].
  rewrite Hk. apply generateKey_length.
Qed.

Lemma key_twice_as_long_as_message_witness :
  exists row,
    sample_single_db !! sample_id 1 = Some row /\
    length (Single.key row) = (2 * length (lit "x"))%nat.
Proof.
  apply (key_twice_as_long_as_message sample_entropy 0 0 (lit "x") ∅ ∅).
  vm_compute. reflexivity.
Defined.

(** The clock moves by one millisecond between the two readings of [set]:
    [createdAt] is the text of 0 and [expiresAt] is not the text of
    0 + 24 hours. *)
Lemma expiresAt_differs_from_createdAt_plus_ttl :
  exists i db' row,
    Single.set sample_entropy 0 1 (lit "x") ∅ ∅ = (Returned i, db') /\
    db' !! i = Some row /\
    Single.createdAt row = toISOString 0 /\
    Single.expiresAt row <> toISOString (0 + 24 * 60 * 60 * 1000).
Proof.
  eexists _, _, _. split; [vm_compute; reflexivity|].
  split; [vm_compute; reflexivity|].
  split; [vm_compute; reflexivity|].
  vm_compute. discriminate.
Qed.

(** C9, as the code has it: [createdAt] is the text of the first clock
    reading, [expiresAt] the text of the second clock reading plus 24 hours:
    86400000 milliseconds, the same for every record. *)
Theorem expiresAt_is_second_reading_plus_ttl
    (src : entropy) (t_created t_now : Z) (p : jsstring)
    (headers : gmap jsstring jsstring) (db : gmap jsstring Single.Message)
    (i : jsstring) (db' : gmap jsstring Single.Message) :
  Single.set src t_created t_now p headers db = (Returned i, db') ->
  exists row,
    db' !! i = Some row /\
    Single.createdAt row = toISOString t_created /\
    Single.expiresAt row = toISOString (t_now + 86400000).
Proof.
  intros Hset.
  apply Single_set_Returned in Hset as (_ & row & -> & _ & _ & Hc & He & _).
  exists row. split; [apply lookup_insert_eq|]. split; [exact Hc|exact He].
Qed.

Lemma expiresAt_is_second_reading_plus_ttl_witness :
  exists row,
    sample_single_db !! sample_id 1 = Some row /\
    Single.createdAt row = toISOString 0 /\
    Single.expiresAt row = toISOString (0 + 86400000).
Proof.
  apply (expiresAt_is_second_reading_plus_ttl sample_entropy 0 0 (lit "x") ∅ ∅).
  vm_compute. reflexivity.
Defined.

(** When both clock readings agree, [expiresAt] is [createdAt] plus
    24 hours. *)
Lemma expiresAt_same_reading
    (src : entropy) (t : Z) (p : jsstring)
    (headers : gmap jsstring jsstring) (db : gmap jsstring Single.Message)
    (i : jsstring) (db' : gmap jsstring Single.Message) :
  Single.set src t t p headers db = (Returned i, db') ->
  exists row,
    db' !! i = Some row /\
    Single.createdAt row = toISOString t /\
    Single.expiresAt row = toISOString (t + 24 * 60 * 60 * 1000).
Proof.
  intros Hset.
  apply Single_set_Returned in Hset as (_ & row & -> & _ & _ & Hc & He & _).
  exists row. split; [apply lookup_insert_eq|]. split; [exact Hc|exact He].
Qed.

(** ** The sanitised message *)

(** A sanitiser that leaves the message U+D83D as it is, as [escapeHtml]
    does: the page decodes FFCC, not the sanitised message. *)
Lemma sanitised_unpaired_surrogate_is_not_recovered :
  escapeHtml [55357] = [55357] /\ wf_string (escapeHtml [55357]) /\
  exists i db',
    Single.message_post escapeHtml sample_entropy 0 0 [55357] ∅ ∅
    = (Single.Ok_id i, db') /\
    escapeHtml i = i /\
    Single.fetchMessage (fst (Single.message_get escapeHtml i db'))
    = Single.Shown [65484] /\
    Single.Shown [65484] <> Single.Shown (escapeHtml [55357]).
Proof.
  split; [reflexivity|].
  split; [repeat constructor; unfold code_unit; cbn; lia|].
  eexists _, _. split; [vm_compute; reflexivity|].
  split; [vm_compute; reflexivity|].
  split; [vm_compute; reflexivity|]. discriminate.
Qed.

(** C10, as the code has it: [POST /message] stores the sanitised message:
    when it has answered with the id [i] and [xss m] has no surrogate on its
    own, [GET /message/:id] for [i] followed by the decoding of the page
    shows [xss m], in both stores; and what the page shows is [m] exactly
    when the sanitiser leaves [m] as it is. *)
Theorem post_stores_sanitised_message
    (xss : jsstring -> jsstring) (src : entropy) (t_created t_now : Z)
    (m : jsstring) (headers : gmap jsstring jsstring)
    (db : gmap jsstring Single.Message) (i : jsstring)
    (db' : gmap jsstring Single.Message)
    (sdb : Split.DB) (j : jsstring) (sdb' : Split.DB) :
  wf_string (xss m) -> isWellFormed (xss m) = true ->
  Single.message_post xss src t_created t_now m headers db = (Single.Ok_id i, db') ->
  Split.message_post xss src t_created t_now m headers sdb = (Split.Ok_id j, sdb') ->
  xss i = i -> xss j = j ->
  Single.fetchMessage (fst (Single.message_get xss i db')) = Single.Shown (xss m) /\
  Split.fetchMessage (fst (Split.message_get xss j sdb')) = Single.Shown (xss m) /\
  (Single.fetchMessage (fst (Single.message_get xss i db')) = Single.Shown m
   <-> xss m = m).
Proof.
  intros Hwf Hw Hpost Hspost Hi Hj.
  unfold Single.message_post in Hpost. unfold Split.message_post in Hspost.
  destruct (Single.set src t_created t_now (xss m) headers db)
    as [[i0|e] d] eqn:Hset; [|discriminate].
  destruct (Split.set src t_created t_now (xss m) headers sdb)
    as [[j0|e] sd] eqn:Hsset; [|discriminate].
  injection Hpost as -> ->. injection Hspost as -> ->.
  apply Single_set_Returned in Hset as (_ & row & -> & Hk & Hm & _).
  apply Split_set_Returned in Hsset
    as (_ & _ & mr & kr & Hms & Hks & Hkk & Hrm & _).
  assert (Hsingle : Single.fetchMessage
                      (fst (Single.message_get xss i (<[i := row]> db)))
                    = Single.Shown (xss m)).
  { unfold Single.message_get, Single.fetchAndConsume, Single.get.
    rewrite Hi, lookup_insert_eq. cbn -[decryptMessage encryptMessage].
    rewrite Hm, Hk. now rewrite stored_text_decodes. }
  split; [exact Hsingle|]. split.
  - unfold Split.message_get, Split.fetchAndConsume, Split.get.
    rewrite Hj, Hms, Hks, !lookup_insert_eq. cbn -[decryptMessage encryptMessage].
    rewrite Hrm, Hkk. now rewrite stored_text_decodes.
  - rewrite Hsingle. split; [intros [= H]; exact H|intros ->; reflexivity].
Qed.

Lemma post_stores_sanitised_message_witness :
  wf_string (escapeHtml (lit "a<b")) /\
  isWellFormed (escapeHtml (lit "a<b")) = true /\
  exists i db' j sdb',
    Single.message_post escapeHtml sample_entropy 0 0 (lit "a<b") ∅ ∅
    = (Single.Ok_id i, db') /\
    Split.message_post escapeHtml sample_entropy 0 0 (lit "a<b") ∅ Split.empty_db
    = (Split.Ok_id j, sdb') /\
    Single.fetchMessage (fst (Single.message_get escapeHtml i db'))
    = Single.Shown (lit "a&lt;b") /\
    Split.fetchMessage (fst (Split.message_get escapeHtml j sdb'))
    = Single.Shown (lit "a&lt;b") /\
    (Single.fetchMessage (fst (Single.message_get escapeHtml i db'))
     = Single.Shown (lit "a<b")
     <-> escapeHtml (lit "a<b") = lit "a<b").
Proof.
  assert (Hwf : wf_string (escapeHtml (lit "a<b"))).
  { repeat constructor; unfold code_unit; cbn; lia. }
  split; [exact Hwf|]. split; [reflexivity|].
  destruct (Single.message_post escapeHtml sample_entropy 0 0 (lit "a<b") ∅ ∅)
    as [r db'] eqn:E1.
  destruct (Split.message_post escapeHtml sample_entropy 0 0 (lit "a<b") ∅
              Split.empty_db) as [sr sdb'] eqn:E2.
  assert (Hr : r = Single.Ok_id (sample_id 6))
    by (apply (f_equal fst) in E1; vm_compute in E1; now subst r).
  assert (Hsr : sr = Split.Ok_id (sample_id 6))
    by (apply (f_equal fst) in E2; vm_compute in E2; now subst sr).
  subst r sr.
  exists (sample_id 6), db', (sample_id 6), sdb'.
  split; [reflexivity|]. split; [reflexivity|].
  apply (post_stores_sanitised_message escapeHtml sample_entropy 0 0 (lit "a<b")
           ∅ ∅ (sample_id 6) db' Split.empty_db (sample_id 6) sdb').
  - exact Hwf.
  - reflexivity.
  - exact E1.
  - exact E2.
  - vm_compute. reflexivity.
  - vm_compute. reflexivity.
Defined.

(** ** The sweep and the probe in terms of instants *)

(** X14: for a record created when [Date.now()] read [t_now], and a sweep when
    the clock reads [t], both within the years 0000 to 9999: the
    single-table store loses the record exactly when
    [t_now + 24 h < t]. *)
Lemma Single_purge_created_record
    (src : entropy) (t_created t_now : Z) (p : jsstring)
    (headers : gmap jsstring jsstring) (db : gmap jsstring Single.Message)
    (i : jsstring) (db' : gmap jsstring Single.Message) (t : Z) :
  Single.set src t_created t_now p headers db = (Returned i, db') ->
  -62167219200000 <= t_now + 86400000 < 253402300800000 ->
  -62167219200000 <= t < 253402300800000 ->
  Single.exists_ i (Single.purgeExpired t db') = negb (t_now + 86400000 <? t).
Proof.
  intros Hset Hr1 Hr2.
  rewrite (Single_exists_after_purge _ _ _ _ _ _ _ _ t Hset).
  change (expires * 1000) with 86400000.
  now rewrite toISOString_ltb.
Qed.

(** What [get] finds after a sweep of the split-table store: the record,
    when the [now] of the sweep is smaller than its [expiresAt]; nothing
    when it is equal or greater. *)
Lemma Split_purgeExpired_get t db i :
  Split.get i (Split.purgeExpired t db) =
  match Split.get i db with
  | Some r => if text_ltb (toISOString t) (Split.expiresAt r) then Some r else None
  | None => None
  end.
Proof.
  unfold Split.get.
  rewrite Split_purgeExpired_messages, Split_purgeExpired_keys.
  destruct (Split.messages db !! i) as [m|]; [|reflexivity].
  destruct (Split.keys db !! i) as [k|]; cbn.
  - destruct (text_ltb (toISOString t) (Split.row_expiresAt m)) eqn:E.
    + now rewrite (text_ltb_asym _ _ E).
    + now destruct (text_ltb (Split.row_expiresAt m) (toISOString t)).
  - now destruct (text_ltb (Split.row_expiresAt m) (toISOString t)).
Qed.

(** The sweep of the split-table store at the instant a record expires, for
    every record and every such instant within the years 0000 to 9999: the
    row of [messages] stays and the record cannot be read any more. *)
Lemma Split_purge_at_expiry_instant
    (src : entropy) (t_created t_now : Z) (p : jsstring)
    (headers : gmap jsstring jsstring) (db : Split.DB) (i : jsstring)
    (db' : Split.DB) :
  Split.set src t_created t_now p headers db = (Returned i, db') ->
  is_Some (Split.get i db') /\
  is_Some (Split.messages (Split.purgeExpired (t_now + 86400000) db') !! i) /\
  Split.get i (Split.purgeExpired (t_now + 86400000) db') = None.
Proof.
  intros Hset.
  apply Split_set_Returned in Hset
    as (_ & _ & m & k & Hm & Hk & _ & _ & _ & He & _).
  change (expires * 1000) with 86400000 in He.
  assert (Hget : exists r, Split.get i db' = Some r /\
                           Split.expiresAt r = toISOString (t_now + 86400000)).
  { unfold Split.get. rewrite Hm, Hk, !lookup_insert_eq.
    eexists. split; [reflexivity|]. exact He. }
  destruct Hget as (r & Hr & Her).
  split; [now exists r|]. split.
  - rewrite Split_purgeExpired_messages, Hm, lookup_insert_eq, He.
    rewrite text_ltb_irrefl. now exists m.
  - rewrite Split_purgeExpired_get, Hr, Her. now rewrite text_ltb_irrefl.
Qed.

(** ** The invariant of the split-table store *)

Lemma Split_empty_db_invariant : Split.keys_have_messages Split.empty_db.
Proof. intros i k H. cbn in H. now rewrite lookup_empty in H. Qed.

Lemma Split_destroy_invariant i db :
  Split.keys_have_messages db -> Split.keys_have_messages (Split.destroy i db).
Proof.
  intros Hinv j k. unfold Split.destroy. cbn.
  intros H. apply lookup_delete_Some in H as [_ H]. eauto.
Qed.

Lemma Split_purgeExpired_invariant t db :
  Split.keys_have_messages (Split.purgeExpired t db).
Proof.
  intros j k. rewrite Split_purgeExpired_keys, Split_purgeExpired_messages.
  destruct (Split.keys db !! j) as [k'|]; [|discriminate].
  destruct (Split.messages db !! j) as [m|]; cbn; [|discriminate].
  destruct (text_ltb (toISOString t) (Split.row_expiresAt m)) eqn:E; [|discriminate].
  intros _. rewrite (text_ltb_asym _ _ E). now exists m.
Qed.

Lemma Split_set_invariant src t_created t_now p headers db out db' :
  Split.set src t_created t_now p headers db = (out, db') ->
  Split.keys_have_messages db -> Split.keys_have_messages db'.
Proof.
  unfold Split.set.
  destruct (generateKey src (length p)) as [key src1].
  case_insert_row (Split.messages db) E.
  - apply insert_row_Returned in E as [Hfresh ->].
    cbn [Split.keys Split.messages].
    case_insert_row (Split.keys db) E'.
    + apply insert_row_Returned in E' as [Hk ->].
      intros [= _ <-] Hinv j k. cbn.
      intros H. apply lookup_insert_Some in H as [[<- _]|[Hne H]].
      * rewrite lookup_insert_eq. eauto.
      * rewrite lookup_insert_ne by exact Hne. eauto.
    + intros [= _ <-] Hinv j k. cbn. intros H.
      destruct (Hinv j k H) as [m Hm].
      match goal with
      | |- is_Some (<[?a:=?b]> _ !! j) =>
          destruct (decide (a = j)) as [<-|Hne];
            [rewrite lookup_insert_eq; eauto
            |rewrite lookup_insert_ne by exact Hne; eauto]
      end.
  - intros [= _ <-] Hinv. exact Hinv.
Qed.

(** Under the invariant, an id that [get] does not find has no row of
    [keys], and the GET handlers leave the store as it is. *)
Lemma Split_get_None_no_key i db :
  Split.keys_have_messages db -> Split.get i db = None ->
  Split.keys db !! i = None.
Proof.
  intros Hinv. unfold Split.get.
  destruct (Split.keys db !! i) as [k|] eqn:Hk; [|reflexivity].
  destruct (Hinv i k Hk) as [m ->]. discriminate.
Qed.

(** ** One after the other *)

(** [n + 1] calls for the id of a record that is there, run one after the
    other: the first finds the record, the others nothing. *)
Lemma Single_fetch_repeatedly_present (n : nat) (i : jsstring)
    (db : gmap jsstring Single.Message) (r : Single.Message) :
  Single.get i db = Some r ->
  Single.fetch_repeatedly (S n) i db = (Some r :: repeat None n, delete i db).
Proof.
  intros H. cbn [Single.fetch_repeatedly].
  rewrite (Single_fetch_present _ _ _ H).
  rewrite Single_fetch_repeatedly_absent; [reflexivity|].
  unfold Single.get. apply lookup_delete_eq.
Qed.

(** The key that [set] draws is long enough for the message. *)
Lemma generateKey_covers_message src (p : jsstring) :
  (length p <= length (fst (generateKey src (length p))))%nat.
Proof. rewrite generateKey_length. lia. Qed.

(** X18: in the split-table store too, the first [fetchAndConsume] after [set]
    finds the record and the next one finds nothing; the record decodes to
    [p] when [p] has no surrogate on its own. *)
Lemma Split_create_then_fetch
    (src : entropy) (t_created t_now : Z) (p : jsstring)
    (headers : gmap jsstring jsstring) (db : Split.DB) (i : jsstring)
    (db' : Split.DB) :
  wf_string p ->
  Split.set src t_created t_now p headers db = (Returned i, db') ->
  exists r db1,
    Split.fetchAndConsume i db' = (Some r, db1) /\
    (isWellFormed p = true ->
     decryptMessage (Split.message r) (Split.key r) = p /\
     Split.fetchMessage (Split.Ok_message r) = Single.Shown p) /\
    Split.fetchAndConsume i db1 = (None, db1).
Proof.
  intros Hp Hset.
  apply Split_set_Returned in Hset
    as (_ & _ & m & k & Hm & Hk & Hkk & Hrm & _).
  unfold Split.fetchAndConsume at 1. unfold Split.get.
  rewrite Hm, Hk, !lookup_insert_eq.
  eexists _, _. split; [reflexivity|]. split.
  - intros Hw. cbn -[decryptMessage encryptMessage]. rewrite Hrm, Hkk.
    rewrite stored_text_decodes by assumption. split; reflexivity.
  - unfold Split.fetchAndConsume. rewrite Split_get_no_key.
    + f_equal. unfold Split.destroy. cbn. f_equal. apply delete_id.
      apply lookup_delete_eq.
    + cbn. apply lookup_delete_eq.
Qed.

(** Two handlers whose statements alternate, as they could in two processes
    on the same file: both reads come before either delete, and both find
    the record.  That one call runs to its end before the next begins is a
    property of the runtime, not of the two statements. *)
Lemma Single_reads_before_deletes
    (i : jsstring) (db : gmap jsstring Single.Message) (r : Single.Message) :
  Single.get i db = Some r ->
  let first := Single.get i db in
  let second := Single.get i db in
  let db := Single.destroy i db in
  let db := Single.destroy i db in
  first = Some r /\ second = Some r /\ Single.get i db = None.
Proof.
  intros H. cbv zeta. split; [exact H|]. split; [exact H|].
  unfold Single.get, Single.destroy. apply lookup_delete_eq.
Qed.

(** [set] throws exactly when the id it drew is taken, and then the
    single-table store is as before. *)
Lemma Single_set_Thrown
    (src : entropy) (t_created t_now : Z) (p : jsstring)
    (headers : gmap jsstring jsstring) (db : gmap jsstring Single.Message)
    (e : Error) (db' : gmap jsstring Single.Message) :
  Single.set src t_created t_now p headers db = (Thrown e, db') ->
  db' = db /\
  is_Some (db !! toString_hex
                   (fst (randomBytes (snd (generateKey src (length p))) 16))).
Proof.
  unfold Single.set.
  destruct (generateKey src (length p)) as [k src1]. cbn [snd].
  case_insert_row db E; [discriminate|].
  intros [= -> <-].
  apply insert_row_Thrown in E as [Hsome ->]. split; [reflexivity|exact Hsome].
Qed.

(** ** The key, position by position *)

(** X1: an empty key leaves every text as it is, in the backend and in the
    page. *)
Theorem empty_key_changes_nothing (text : jsstring) :
  wf_string text -> encryptMessage text [] = text /\ decryptMessage text [] = text.
Proof.
  intros Hwf. rewrite decryptMessage_imap, encryptMessage_imap.
  assert (H : imap (xor_unit []) text = text).
  { apply list_eq. intros i. rewrite list_lookup_imap.
    destruct (text !! i) as [c|] eqn:Hi; [|reflexivity]. cbn. f_equal.
    apply xor_unit_empty_key. eapply Forall_lookup_1; eassumption. }
  now rewrite H.
Qed.

(** X2: the unit at position [i] of the encoded text is the unit of the
    message XOR the unit of the key at position [i] modulo the length of
    the key: a key shorter than the message is used again from its start. *)
Theorem encrypt_reuses_key_cyclically (message key : jsstring) (i : nat) (c : Z) :
  wf_string message -> wf_string key -> key <> [] ->
  message !! i = Some c ->
  exists x, key !! (i mod length key)%nat = Some x /\
            encryptMessage message key !! i = Some (Z.lxor c x).
Proof.
  intros Hm Hk Hne Hi.
  assert (Hc : code_unit c) by exact (Forall_lookup_1 _ _ _ _ Hm Hi).
  destruct (xor_unit_cyclic key i c Hne Hk Hc) as (x & Hx & Hu).
  exists x. split; [exact Hx|].
  rewrite encryptMessage_imap, list_lookup_imap, Hi. cbn -[xor_unit]. now rewrite Hu.
Qed.

(** X3: only the first [length message] units of a key take part. *)
Theorem encrypt_uses_key_prefix (message key : jsstring) :
  (length message <= length key)%nat ->
  encryptMessage message key = encryptMessage message (take (length message) key).
Proof.
  intros Hlen. rewrite !encryptMessage_imap. apply imap_ext. intros i c Hi.
  apply lookup_lt_Some in Hi as Hlt.
  unfold xor_unit. f_equal. f_equal.
  assert (Hk : key <> []) by (destruct key; [cbn in Hlen; lia|congruence]).
  assert (Hk' : take (length message) key <> []).
  { destruct key, message; cbn in *; try congruence; lia. }
  destruct (key_unit_cyclic key i Hk) as (x & Hx & ->).
  destruct (key_unit_cyclic _ i Hk') as (y & Hy & ->).
  rewrite length_take, Nat.min_l in Hy by lia.
  rewrite Nat.mod_small in Hx, Hy by lia.
  rewrite lookup_take_lt in Hy by lia. congruence.
Qed.

(** ** Hexadecimal text *)

Lemma hex_digit_inj a b :
  0 <= a < 16 -> 0 <= b < 16 -> hex_digit a = hex_digit b -> a = b.
Proof.
  unfold hex_digit. intros Ha Hb.
  destruct (Z.ltb_spec a 10), (Z.ltb_spec b 10); lia.
Qed.

Lemma hex_byte_inj a b : hex_byte a = hex_byte b -> a = b.
Proof.
  unfold hex_byte. intros [= H1 H2].
  pose proof (byte_to_Z_range a) as Ha. pose proof (byte_to_Z_range b) as Hb.
  apply hex_digit_inj in H1; [|Z.div_mod_to_equations; lia..].
  apply hex_digit_inj in H2; [|Z.div_mod_to_equations; lia..].
  assert (Hn : Byte.to_N a = Byte.to_N b) by (Z.div_mod_to_equations; lia).
  pose proof (Byte.of_to_N a) as Ea. pose proof (Byte.of_to_N b) as Eb.
  rewrite Hn in Ea. congruence.
Qed.

(** X5: different byte strings have different hexadecimal texts. *)
Theorem toString_hex_injective (a b : list byte) :
  toString_hex a = toString_hex b -> a = b.
Proof.
  unfold toString_hex. revert b.
  induction a as [|x a IH]; intros [|y b]; cbn [map concat]; try easy.
  intros H.
  assert (Hx : hex_byte x = hex_byte y /\
               concat (map hex_byte a) = concat (map hex_byte b)).
  { unfold hex_byte in *. cbn in H. injection H as H1 H2 H3.
    split; [now rewrite H1, H2|exact H3]. }
  destruct Hx as [Hx Hrest]. f_equal; [now apply hex_byte_inj|now apply IH].
Qed.

Lemma drawn_id_length src n : length (drawn_id src n) = 32%nat.
Proof. unfold drawn_id. now rewrite toString_hex_length, randomBytes_length. Qed.

(** ** More on the single-table store *)

(** The row that [set] writes. *)
Lemma Single_set_row (src : entropy) (t_created t_now : Z) (p : jsstring)
    (headers : gmap jsstring jsstring) (db : gmap jsstring Single.Message)
    (out : outcome jsstring) (db' : gmap jsstring Single.Message) :
  Single.set src t_created t_now p headers db = (out, db') ->
  let i := drawn_id src (length p) in
  let k := fst (generateKey src (length p)) in
  let row :=
    {| Single.message := sqlite_text (encryptMessage p k); Single.key := k;
       Single.createdAt := toISOString t_created;
       Single.expiresAt := toISOString (t_now + expires * 1000);
       Single.ipReader := None;
       Single.ipWriter :=
         js_or (js_or (headers !! lit "x-forwarded-for")
                      (headers !! lit "x-real-ip")) None;
       Single.userAgent := headers !! lit "user-agent";
       Single.id := i |} in
  match db !! i with
  | Some _ => out = Thrown SQLITE_CONSTRAINT_PRIMARYKEY /\ db' = db
  | None => out = Returned i /\ db' = <[i := row]> db
  end.
Proof.
  unfold Single.set, drawn_id, insert_row.
  destruct (generateKey src (length p)) as [k src1]. cbn [fst snd].
  destruct (db !! _); intros [= <- <-]; split; reflexivity.
Qed.

Lemma js_or_never_empty a b : js_or (js_or a b) None <> Some [].
Proof. destruct a as [[|]|], b as [[|]|]; cbn; congruence. Qed.

Lemma Single_set_rows_ok (src : entropy) (t_created t_now : Z) (p : jsstring)
    (headers : gmap jsstring jsstring) (db : gmap jsstring Single.Message)
    (out : outcome jsstring) (db' : gmap jsstring Single.Message) :
  Single.set src t_created t_now p headers db = (out, db') ->
  Single_rows_ok db -> Single_rows_ok db'.
Proof.
  intros Hset Hok. apply Single_set_row in Hset. cbv zeta in Hset.
  destruct (db !! drawn_id src (length p)) eqn:Hi.
  - destruct Hset as [_ ->]. exact Hok.
  - destruct Hset as [_ ->]. intros j r Hj.
    apply lookup_insert_Some in Hj as [[<- <-]|[_ Hj]]; [|now apply Hok].
    unfold Single_row_ok.
    cbn [Single.id Single.key Single.message Single.ipReader Single.ipWriter].
    split; [reflexivity|]. split; [apply drawn_id_length|].
    split; [apply toString_hex_hex_units|].
    split; [now rewrite generateKey_length, sqlite_text_length,
              encryptMessage_length|].
    split; [apply generateKey_hex_units|].
    split; [apply sqlite_text_wf, encryptMessage_wf|].
    split; [reflexivity|apply js_or_never_empty].
Qed.

Lemma Single_exec_rows_ok (db : gmap jsstring Single.Message) (c : SingleCall) : Single_rows_ok db -> Single_rows_ok (Single_exec db c).
Proof.
  intros Hok. destruct c as [src t1 t2 p h|i|i|t]; cbn [Single_exec].
  - destruct (Single.set src t1 t2 p h db) as [out db'] eqn:E.
    exact (Single_set_rows_ok _ _ _ _ _ _ _ _ E Hok).
  - exact Hok.
  - intros j r Hj. unfold Single.destroy in Hj.
    apply lookup_delete_Some in Hj as [_ Hj]. now apply Hok.
  - intros j r Hj. unfold Single.purgeExpired in Hj.
    apply map_lookup_filter_Some in Hj as [Hj _]. now apply Hok.
Qed.

(** X6: whatever calls were made on a store that started empty, every row
    sits under its own id, the id is a text of 32 hexadecimal digits, the
    key is a hexadecimal text twice as long as the stored message,
    [ipReader] is null and [ipWriter] is never the empty string. *)
Theorem Single_rows_ok_always (calls : list SingleCall) :
  Single_rows_ok (Single_run calls ∅).
Proof.
  unfold Single_run.
  assert (H : forall db, Single_rows_ok db -> Single_rows_ok (fold_left Single_exec calls db)).
  { induction calls as [|c calls IH]; intros db Hok; [exact Hok|].
    cbn [fold_left]. apply IH, Single_exec_rows_ok, Hok. }
  apply H. intros i r Hi. now rewrite lookup_empty in Hi.
Qed.

(** X7: [set] never overwrites: when the id it draws is taken, it throws,
    the store stays as it is and [POST /message] answers with the error. *)
Theorem Single_set_never_overwrites
    (xss : jsstring -> jsstring) (src : entropy) (t_created t_now : Z)
    (body_message : jsstring) (headers : gmap jsstring jsstring)
    (db : gmap jsstring Single.Message) :
  is_Some (db !! drawn_id src (length (xss body_message))) ->
  Single.set src t_created t_now (xss body_message) headers db
  = (Thrown SQLITE_CONSTRAINT_PRIMARYKEY, db) /\
  Single.message_post xss src t_created t_now body_message headers db
  = (Single.Error_500 SQLITE_CONSTRAINT_PRIMARYKEY, db).
Proof.
  intros [r Hr]. unfold Single.message_post.
  destruct (Single.set src t_created t_now (xss body_message) headers db)
    as [out db'] eqn:E.
  pose proof (Single_set_row _ _ _ _ _ _ _ _ E) as H. cbv zeta in H.
  rewrite Hr in H. destruct H as [-> ->]. split; reflexivity.
Qed.

(** X8: a successful [set] adds one row and leaves every other row as it
    is. *)
Theorem Single_set_adds_one_row
    (src : entropy) (t_created t_now : Z) (p : jsstring)
    (headers : gmap jsstring jsstring) (db : gmap jsstring Single.Message)
    (i : jsstring) (db' : gmap jsstring Single.Message) :
  Single.set src t_created t_now p headers db = (Returned i, db') ->
  db !! i = None /\ is_Some (db' !! i) /\
  (forall j, j <> i -> db' !! j = db !! j) /\
  size db' = S (size db).
Proof.
  intros Hset. apply Single_set_Returned in Hset as (Hfresh & row & -> & _).
  split; [exact Hfresh|]. split; [rewrite lookup_insert_eq; eauto|].
  split; [intros j Hj; now apply lookup_insert_ne|].
  now apply map_size_insert_None.
Qed.

(** X9: two fetches for different ids give the same results and the same
    store in either order. *)
Theorem Single_fetches_commute
    (i j : jsstring) (db : gmap jsstring Single.Message) :
  i <> j ->
  let '(ri, db1) := Single.fetchAndConsume i db in
  let '(rj, db2) := Single.fetchAndConsume j db1 in
  let '(rj', db1') := Single.fetchAndConsume j db in
  let '(ri', db2') := Single.fetchAndConsume i db1' in
  ri = ri' /\ rj = rj' /\ db2 = db2'.
Proof.
  intros Hne. unfold Single.fetchAndConsume, Single.get, Single.destroy.
  split; [now rewrite lookup_delete_ne|].
  split; [now rewrite lookup_delete_ne|].
  apply delete_delete.
Qed.


(** X15: the provenance that [set] stores: a [x-forwarded-for] that is not
    empty wins; a missing or empty one gives way to [x-real-ip]; when that is
    missing or empty too, [ipWriter] is null.  The [user-agent] is stored as
    it came, also when empty. *)
Theorem stored_provenance
    (src : entropy) (t_created t_now : Z) (p : jsstring)
    (headers : gmap jsstring jsstring) (db : gmap jsstring Single.Message)
    (i : jsstring) (db' : gmap jsstring Single.Message) :
  Single.set src t_created t_now p headers db = (Returned i, db') ->
  exists row,
    db' !! i = Some row /\
    Single.userAgent row = headers !! lit "user-agent" /\
    Single.ipReader row = None /\
    Single.ipWriter row =
      (if Page.truthy (headers !! lit "x-forwarded-for")
       then headers !! lit "x-forwarded-for"
       else if Page.truthy (headers !! lit "x-real-ip")
            then headers !! lit "x-real-ip"
            else None).
Proof.
  intros Hset. pose proof (Single_set_row _ _ _ _ _ _ _ _ Hset) as H.
  cbv zeta in H.
  destruct (db !! drawn_id src (length p)); destruct H as [[= <-] ->].
  eexists. split; [apply lookup_insert_eq|].
  cbn [Single.userAgent Single.ipReader Single.ipWriter].
  split; [reflexivity|]. split; [reflexivity|].
  destruct (headers !! lit "x-forwarded-for") as [[|]|],
           (headers !! lit "x-real-ip") as [[|]|]; reflexivity.
Qed.

(** ** Sweeps, one after the other *)

Lemma text_ltb_trans a b c :
  text_ltb a b = true -> text_ltb b c = true -> text_ltb a c = true.
Proof.
  revert b c. induction a as [|x a IH]; intros [|y b] [|z c]; cbn; try easy.
  intros H1 H2.
  apply orb_true_iff in H1 as [H1|H1]; apply orb_true_iff in H2 as [H2|H2];
    rewrite ?andb_true_iff, ?Z.ltb_lt, ?Z.eqb_eq in *.
  - rewrite (proj2 (Z.ltb_lt x z)) by lia. reflexivity.
  - destruct H2 as [<- _]. rewrite (proj2 (Z.ltb_lt x y)) by lia. reflexivity.
  - destruct H1 as [-> _]. rewrite (proj2 (Z.ltb_lt y z)) by lia. reflexivity.
  - destruct H1 as [-> H1], H2 as [-> H2].
    rewrite Z.eqb_refl, (IH _ _ H1 H2). cbn. apply orb_true_r.
Qed.

(** X12: two sweeps of the single-table store, at instants of the years 0000
    to 9999, leave what one sweep at the later instant leaves, in either
    order. *)
Theorem Single_sweeps_compose (t1 t2 : Z) (db : gmap jsstring Single.Message) :
  -62167219200000 <= t1 < 253402300800000 ->
  -62167219200000 <= t2 < 253402300800000 ->
  Single.purgeExpired t2 (Single.purgeExpired t1 db)
  = Single.purgeExpired (Z.max t1 t2) db.
Proof.
  intros H1 H2. apply map_eq. intros i.
  rewrite !Single_purgeExpired_lookup.
  destruct (db !! i) as [r|]; [|reflexivity].
  pose proof (toISOString_ltb t1 t2 H1 H2) as H12.
  pose proof (toISOString_ltb t2 t1 H2 H1) as H21.
  destruct (Z.max_spec t1 t2) as [[Hlt ->]|[Hge ->]].
  - rewrite (proj2 (Z.ltb_lt _ _) Hlt) in H12.
    destruct (text_ltb (Single.expiresAt r) (toISOString t1)) eqn:E1; [|reflexivity].
    now rewrite (text_ltb_trans _ _ _ E1 H12).
  - destruct (text_ltb (Single.expiresAt r) (toISOString t1)) eqn:E1; [reflexivity|].
    destruct (text_ltb (Single.expiresAt r) (toISOString t2)) eqn:E2; [|reflexivity].
    destruct (Z.eq_dec t1 t2) as [->|Hne]; [congruence|].
    rewrite (proj2 (Z.ltb_lt t2 t1)) in H21 by lia.
    rewrite (text_ltb_trans _ _ _ E2 H21) in E1. discriminate.
Qed.

Lemma toISOString_length t :
  -62167219200000 <= t < 253402300800000 -> length (toISOString t) = 24%nat.
Proof.
  intros Ht. unfold toISOString.
  rewrite year_string_range by now apply YearFromTime_range.
  rewrite !length_app, !digits_length. reflexivity.
Qed.

(** X13: for the instants of the years 0000 to 9999, the text written by
    [toISOString] has 24 units, different instants have different texts, and
    the comparison of the texts that the sweep makes is the comparison of the
    instants. *)
Theorem timestamps_order_as_instants (t1 t2 : Z) :
  -62167219200000 <= t1 < 253402300800000 ->
  -62167219200000 <= t2 < 253402300800000 ->
  length (toISOString t1) = 24%nat /\
  (text_ltb (toISOString t1) (toISOString t2) = true <-> t1 < t2) /\
  (toISOString t1 = toISOString t2 <-> t1 = t2).
Proof.
  intros H1 H2. split; [now apply toISOString_length|]. split.
  - rewrite toISOString_ltb by assumption. apply Z.ltb_lt.
  - split; [|now intros ->].
    intros E. pose proof (toISOString_ltb t1 t2 H1 H2) as H12.
    pose proof (toISOString_ltb t2 t1 H2 H1) as H21.
    rewrite E, text_ltb_irrefl in H12. rewrite E, text_ltb_irrefl in H21.
    symmetry in H12, H21. apply Z.ltb_ge in H12, H21. lia.
Qed.

(** ** More on the split-table store *)

(** The three ways [set] can end. *)
Lemma Split_set_cases (src : entropy) (t_created t_now : Z) (p : jsstring)
    (headers : gmap jsstring jsstring) (db : Split.DB)
    (out : outcome jsstring) (db' : Split.DB) :
  Split.set src t_created t_now p headers db = (out, db') ->
  let i := drawn_id src (length p) in
  let k := fst (generateKey src (length p)) in
  let m :=
    {| Split.row_message := sqlite_text (encryptMessage p k);
       Split.row_createdAt := toISOString t_created;
       Split.row_expiresAt := toISOString (t_now + expires * 1000);
       Split.row_ipReader := None;
       Split.row_ipWriter :=
         js_or (js_or (headers !! lit "x-forwarded-for")
                      (headers !! lit "x-real-ip")) None;
       Split.row_userAgent := headers !! lit "user-agent";
       Split.row_id := i |} in
  match Split.messages db !! i, Split.keys db !! i with
  | Some _, _ => out = Thrown SQLITE_CONSTRAINT_PRIMARYKEY /\ db' = db
  | None, Some _ =>
      out = Thrown SQLITE_CONSTRAINT_PRIMARYKEY /\
      db' = {| Split.messages := <[i := m]> (Split.messages db);
               Split.keys := Split.keys db |}
  | None, None =>
      out = Returned i /\
      db' = {| Split.messages := <[i := m]> (Split.messages db);
               Split.keys := <[i := {| Split.key_id := i; Split.key_key := k |}]>
                               (Split.keys db) |}
  end.
Proof.
  unfold Split.set, drawn_id, insert_row.
  destruct (generateKey src (length p)) as [k src1]. cbn [fst snd].
  destruct (Split.messages db !! _); [intros [= <- <-]; now split|].
  cbn [Split.keys Split.messages].
  destruct (Split.keys db !! _); intros [= <- <-]; now split.
Qed.

Lemma Split_rows_ok_keys_have_messages db :
  Split_rows_ok db -> Split.keys_have_messages db.
Proof. intros [_ H] i k Hk. destruct (H i k Hk) as (_ & m & Hm & _). eauto. Qed.

Lemma Split_set_rows_ok (src : entropy) (t_created t_now : Z) (p : jsstring)
    (headers : gmap jsstring jsstring) (db : Split.DB)
    (out : outcome jsstring) (db' : Split.DB) :
  Split.set src t_created t_now p headers db = (out, db') ->
  Split_rows_ok db -> Split_rows_ok db'.
Proof.
  intros Hset Hok. pose proof (Split_set_cases _ _ _ _ _ _ _ _ Hset) as H.
  cbv zeta in H. destruct Hok as [Hm Hk].
  destruct (Split.messages db !! drawn_id src (length p)) as [m0|] eqn:Em.
  { destruct H as [_ ->]. now split. }
  destruct (Split.keys db !! drawn_id src (length p)) as [k0|] eqn:Ek.
  { destruct (Hk _ _ Ek) as (_ & m1 & Hm1 & _). congruence. }
  destruct H as [_ ->]. split; cbn [Split.messages Split.keys].
  - intros j m Hj. apply lookup_insert_Some in Hj as [[<- <-]|[_ Hj]]; [reflexivity|].
    now apply Hm.
  - intros j k Hj. apply lookup_insert_Some in Hj as [[<- <-]|[Hne Hj]].
    + split; [reflexivity|]. eexists. split; [apply lookup_insert_eq|].
      cbn [Split.key_key Split.row_message].
      now rewrite generateKey_length, sqlite_text_length, encryptMessage_length.
    + destruct (Hk _ _ Hj) as (Hid & m1 & Hm1 & Hlen). split; [exact Hid|].
      exists m1. split; [|exact Hlen]. now rewrite lookup_insert_ne.
Qed.

Lemma Split_exec_rows_ok db c : Split_rows_ok db -> Split_rows_ok (Split_exec db c).
Proof.
  intros Hok. destruct c as [src t1 t2 p h|i|i|t]; cbn [Split_exec].
  - destruct (Split.set src t1 t2 p h db) as [out db'] eqn:E.
    exact (Split_set_rows_ok _ _ _ _ _ _ _ _ E Hok).
  - exact Hok.
  - destruct Hok as [Hm Hk]. split; cbn [Split.destroy Split.messages Split.keys].
    + exact Hm.
    + intros j k Hj. apply lookup_delete_Some in Hj as [_ Hj]. now apply Hk.
  - destruct Hok as [Hm Hk]. split.
    + intros j m. rewrite Split_purgeExpired_messages.
      destruct (Split.messages db !! j) as [m0|] eqn:E; [|discriminate].
      destruct (text_ltb _ _); [discriminate|]. intros [= <-]. now apply Hm.
    + intros j k. rewrite Split_purgeExpired_keys, Split_purgeExpired_messages.
      destruct (Split.keys db !! j) as [k0|] eqn:Ek; [|discriminate].
      destruct (Hk _ _ Ek) as (Hid & m & Hmj & Hlen). rewrite Hmj.
      cbn [Split.expires_after].
      destruct (text_ltb (toISOString t) (Split.row_expiresAt m)) eqn:E;
        [|discriminate].
      intros [= <-]. split; [exact Hid|]. exists m.
      now rewrite (text_ltb_asym _ _ E).
Qed.

Lemma Split_run_rows_ok calls : Split_rows_ok (Split_run calls Split.empty_db).
Proof.
  unfold Split_run.
  assert (H : forall db, Split_rows_ok db -> Split_rows_ok (fold_left Split_exec calls db)).
  { induction calls as [|c calls IH]; intros db Hok; [exact Hok|].
    cbn [fold_left]. apply IH, Split_exec_rows_ok, Hok. }
  apply H. split; intros i r Hi; cbn in Hi; now rewrite lookup_empty in Hi.
Qed.

(** X16: whatever calls were made on a split-table store that started empty,
    every row of [keys] has its row of [messages], rows sit under their own
    id, and a key is twice as long as the text of its message. *)
Theorem Split_rows_ok_always (calls : list SplitCall) :
  Split_rows_ok (Split_run calls Split.empty_db) /\
  Split.keys_have_messages (Split_run calls Split.empty_db).
Proof.
  split; [apply Split_run_rows_ok|].
  apply Split_rows_ok_keys_have_messages, Split_run_rows_ok.
Qed.

(** X17: in every state the split-table store can reach from the empty one,
    [set] writes both rows or none: when it throws, the store is as
    before; when it returns, [get] finds the record under the returned
    id. *)
Theorem Split_set_writes_both_rows_or_none
    (calls : list SplitCall) (src : entropy) (t_created t_now : Z)
    (p : jsstring) (headers : gmap jsstring jsstring) :
  let db := Split_run calls Split.empty_db in
  match Split.set src t_created t_now p headers db with
  | (Thrown _, db') => db' = db
  | (Returned i, db') =>
      Split.get i db = None /\ is_Some (Split.get i db') /\
      is_Some (Split.messages db' !! i) /\ is_Some (Split.keys db' !! i)
  end.
Proof.
  cbv zeta. pose proof (Split_run_rows_ok calls) as Hok.
  destruct (Split.set src t_created t_now p headers (Split_run calls Split.empty_db))
    as [out db'] eqn:E.
  pose proof (Split_set_cases _ _ _ _ _ _ _ _ E) as H. cbv zeta in H.
  destruct (Split.messages (Split_run calls Split.empty_db) !! drawn_id src (length p))
    as [m0|] eqn:Em.
  { destruct H as [-> ->]. reflexivity. }
  destruct (Split.keys (Split_run calls Split.empty_db) !! drawn_id src (length p))
    as [k0|] eqn:Ek.
  { destruct Hok as [_ Hk]. destruct (Hk _ _ Ek) as (_ & m1 & Hm1 & _). congruence. }
  destruct H as [-> ->]. unfold Split.get. cbn [Split.messages Split.keys].
  rewrite Em, !lookup_insert_eq. repeat split; eauto.
Qed.

(** X19: a record of the split-table store and the sweep, at instants of the
    years 0000 to 9999: a sweep at [t] leaves the record readable exactly
    when [t] is before the expiry, and removes the stored text exactly when
    [t] is after it, whether or not the record was consumed in between. *)
Theorem Split_sweep_and_expiry
    (src : entropy) (t_created t_now : Z) (p : jsstring)
    (headers : gmap jsstring jsstring) (db : Split.DB) (i : jsstring)
    (db' : Split.DB) (t : Z) :
  Split.set src t_created t_now p headers db = (Returned i, db') ->
  -62167219200000 <= t_now + 86400000 < 253402300800000 ->
  -62167219200000 <= t < 253402300800000 ->
  Split.exists_ i (Split.purgeExpired t db') = (t <? t_now + 86400000) /\
  (Split.messages (Split.purgeExpired t db') !! i = None
   <-> t_now + 86400000 < t) /\
  (Split.messages (Split.purgeExpired t (snd (Split.fetchAndConsume i db'))) !! i
   = None <-> t_now + 86400000 < t).
Proof.
  intros Hset Hr1 Hr2.
  apply Split_set_Returned in Hset
    as (_ & _ & m & k & Hm & Hk & _ & _ & _ & He & _).
  change (expires * 1000) with 86400000 in He.
  assert (Hrow : Split.messages db' !! i = Some m)
    by (rewrite Hm; apply lookup_insert_eq).
  assert (Hsweep : forall d, Split.messages d !! i = Some m ->
            (Split.messages (Split.purgeExpired t d) !! i = None
             <-> t_now + 86400000 < t)).
  { intros d Hd. rewrite Split_purgeExpired_messages, Hd, He.
    rewrite toISOString_ltb by assumption.
    destruct (Z.ltb_spec (t_now + 86400000) t); split; try easy; lia. }
  split; [|split].
  - unfold Split.exists_. rewrite Split_purgeExpired_get.
    unfold Split.get. rewrite Hrow, Hk, lookup_insert_eq.
    cbn [Split.expiresAt]. rewrite He, toISOString_ltb by assumption.
    now destruct (t <? t_now + 86400000).
  - now apply Hsweep.
  - apply Hsweep. exact Hrow.
Qed.

(** ** The page *)

Lemma Page_effect_after_fetch xss route (w : Page.World) params_id :
  Page.hasFetched (Page.page w) = true -> Page.effect xss route w params_id = w.
Proof.
  intros H. unfold Page.effect. rewrite H. now rewrite andb_false_r.
Qed.

Lemma Page_effect_skip xss route (w : Page.World) params_id :
  Page.truthy params_id = false -> Page.effect xss route w params_id = w.
Proof. intros H. unfold Page.effect. now rewrite H. Qed.

(** The world in which the first request is sent. *)
Lemma Page_effect_first xss route (w : Page.World) (id : jsstring) :
  Page.hasFetched (Page.page w) = false -> Page.truthy (Some id) = true ->
  Page.effect xss route w (Some id)
  = Page.fetchMessage xss route id
      {| Page.page := {| Page.message := Page.message (Page.page w);
                         Page.error := Page.error (Page.page w);
                         Page.loading := Page.loading (Page.page w);
                         Page.hasFetched := true |};
         Page.server := Page.server w; Page.requests := Page.requests w |}.
Proof. intros Hf Ht. unfold Page.effect. rewrite Hf, Ht. reflexivity. Qed.

Lemma Page_effects_after_fetch xss route runs (w : Page.World) :
  Page.hasFetched (Page.page w) = true -> Page.effects xss route runs w = w.
Proof.
  unfold Page.effects. revert w.
  induction runs as [|r runs IH]; intros w H; [reflexivity|].
  cbn [fold_left]. rewrite Page_effect_after_fetch by exact H. now apply IH.
Qed.

Lemma Page_fetchMessage_state xss route (id : jsstring) (w : Page.World) :
  let w' := Page.fetchMessage xss route id w in
  Page.hasFetched (Page.page w') = Page.hasFetched (Page.page w) /\
  Page.loading (Page.page w') = false /\
  Page.requests w' = Page.requests w ++ [id] /\
  Page.server w' = snd (Page.getMessageService xss route id (Page.server w)).
Proof.
  unfold Page.fetchMessage.
  destruct (Page.getMessageService xss route id (Page.server w)) as [response db].
  cbv zeta. destruct (Single.fetchMessage response); cbn; repeat split.
Qed.

(** All the runs together are the first run with an id that counts. *)
Lemma Page_effects_first xss route (runs : list (option jsstring)) (w0 : Page.World) :
  Page.hasFetched (Page.page w0) = false ->
  Page.effects xss route runs w0 =
  match Page.first_truthy runs with
  | None => w0
  | Some id =>
      Page.fetchMessage xss route id
        {| Page.page := {| Page.message := Page.message (Page.page w0);
                           Page.error := Page.error (Page.page w0);
                           Page.loading := Page.loading (Page.page w0);
                           Page.hasFetched := true |};
           Page.server := Page.server w0; Page.requests := Page.requests w0 |}
  end.
Proof.
  intros Hf. unfold Page.effects.
  induction runs as [|r runs IH]; [reflexivity|].
  cbn [fold_left Page.first_truthy]. destruct (Page.truthy r) eqn:Ht.
  - destruct r as [[|c s]|]; cbn in Ht; try discriminate.
    rewrite (Page_effect_first xss route w0 (c :: s) Hf eq_refl).
    apply (Page_effects_after_fetch xss route runs).
    match goal with |- context [Page.fetchMessage xss route ?i ?v] =>
      now destruct (Page_fetchMessage_state xss route i v) as (-> & _)
    end.
  - rewrite (Page_effect_skip xss route w0 r Ht). exact IH.
Qed.

Lemma Page_first_truthy_Some runs (id : jsstring) :
  Page.first_truthy runs = Some id -> Some id ∈ runs /\ id <> [].
Proof.
  induction runs as [|r runs IH]; [discriminate|].
  cbn [Page.first_truthy]. destruct (Page.truthy r) eqn:Ht.
  - intros ->. split; [apply elem_of_cons; now left|].
    intros ->. discriminate.
  - intros H. destruct (IH H) as [Hin Hne].
    split; [apply elem_of_cons; now right|exact Hne].
Qed.

(** X21: however often the effect runs, and whatever ids it is run with, the
    page sends at most one request.  When no run has an id that counts,
    nothing happens.  Otherwise the first such run sets [hasFetched], sends
    the one request, for its id, and the server answers it; every other run
    does nothing. *)
Theorem Page_sends_at_most_one_request
    (xss : jsstring -> jsstring) (route : jsstring -> option jsstring)
    (runs : list (option jsstring)) (calls : list SingleCall) :
  let db := Single_run calls ∅ in
  let w0 := {| Page.page := Page.initial; Page.server := db; Page.requests := [] |} in
  let w := Page.effects xss route runs w0 in
  match Page.first_truthy runs with
  | None => w = w0
  | Some id =>
      Some id ∈ runs /\ id <> [] /\
      Page.requests w = [id] /\
      Page.hasFetched (Page.page w) = true /\
      Page.loading (Page.page w) = false /\
      Page.server w = snd (Page.getMessageService xss route id db)
  end.
Proof.
  cbv zeta. rewrite Page_effects_first by reflexivity.
  destruct (Page.first_truthy runs) as [id|] eqn:E; [|reflexivity].
  destruct (Page_first_truthy_Some runs id E) as [Hin Hne].
  split; [exact Hin|]. split; [exact Hne|].
  match goal with |- context [Page.fetchMessage xss route id ?v] =>
    destruct (Page_fetchMessage_state xss route id v) as (Hh & Hl & Hq & Hs)
  end.
  rewrite Hq, Hh, Hl, Hs. repeat split.
Qed.

Lemma Page_fetchMessage_found xss route (id params_id : jsstring)
    (w : Page.World) (r : Single.Message) :
  route id = Some params_id ->
  Single.get (xss params_id) (Page.server w) = Some r ->
  Page.fetchMessage xss route id w
  = {| Page.page :=
         {| Page.message := Some (decryptMessage (Single.message r) (Single.key r));
            Page.error := Page.error (Page.page w); Page.loading := false;
            Page.hasFetched := Page.hasFetched (Page.page w) |};
       Page.server := delete (xss params_id) (Page.server w);
       Page.requests := Page.requests w ++ [id] |}.
Proof.
  intros Hr H. unfold Page.fetchMessage, Page.getMessageService, Single.message_get.
  now rewrite Hr, (Single_fetch_present _ _ _ H).
Qed.

Lemma Page_fetchMessage_absent xss route (id : jsstring) (w : Page.World) :
  route id = None \/
  (exists params_id, route id = Some params_id /\
                     Single.get (xss params_id) (Page.server w) = None) ->
  Page.fetchMessage xss route id w
  = {| Page.page :=
         {| Page.message := Page.message (Page.page w);
            Page.error :=
              Some (lit "Failed to fetch the message. It might have expired.");
            Page.loading := false;
            Page.hasFetched := Page.hasFetched (Page.page w) |};
       Page.server := Page.server w;
       Page.requests := Page.requests w ++ [id] |}.
Proof.
  unfold Page.fetchMessage, Page.getMessageService, Single.message_get.
  intros [Hr|(params_id & Hr & H)]; rewrite Hr; [reflexivity|].
  now rewrite (Single_fetch_absent _ _ H).
Qed.

(** X22: at every moment the page shows one thing: the loading notice as
    long as no request was sent; after the request the panel with the
    decoded message, when the id taken from the URL is that of a record of
    the server; and the error text, when the URL matches no route or the id
    taken from it has no record. *)
Theorem Page_shows_one_block
    (xss : jsstring -> jsstring) (route : jsstring -> option jsstring)
    (runs : list (option jsstring)) (calls : list SingleCall) :
  let db := Single_run calls ∅ in
  let w := Page.effects xss route runs
             {| Page.page := Page.initial; Page.server := db; Page.requests := [] |} in
  (Page.requests w = [] /\ Page.render (Page.page w) = [Page.Loading]) \/
  (exists id params_id r,
     Page.requests w = [id] /\ route id = Some params_id /\
     Single.get (xss params_id) db = Some r /\
     Page.render (Page.page w)
     = [Page.MessagePanel (Some (decryptMessage (Single.message r) (Single.key r)))]) \/
  (exists id,
     Page.requests w = [id] /\
     (route id = None \/
      exists params_id, route id = Some params_id /\
                        Single.get (xss params_id) db = None) /\
     Page.render (Page.page w)
     = [Page.ErrorText (lit "Failed to fetch the message. It might have expired.")]).
Proof.
  cbv zeta. rewrite Page_effects_first by reflexivity.
  destruct (Page.first_truthy runs) as [id|]; [right|left; split; reflexivity].
  cbn [Page.page Page.server Page.requests Page.initial
       Page.message Page.error Page.loading].
  destruct (route id) as [params_id|] eqn:Hr.
  - destruct (Single.get (xss params_id) (Single_run calls ∅)) as [r|] eqn:Hget.
    + left. exists id, params_id, r.
      rewrite (Page_fetchMessage_found xss route id params_id _ r Hr) by exact Hget.
      repeat split; try reflexivity; assumption.
    + right. exists id.
      rewrite (Page_fetchMessage_absent xss route id)
        by (right; exists params_id; split; [exact Hr|exact Hget]).
      split; [reflexivity|]. split; [|reflexivity].
      right. exists params_id. now split.
  - right. exists id.
    rewrite (Page_fetchMessage_absent xss route id) by (left; exact Hr).
    split; [reflexivity|]. split; [now left|reflexivity].
Qed.

(** X23: a message without a surrogate on its own that was created is shown
    by the page that opens its link, however often the effect runs (twice in
    a development build): one request goes out, the panel shows the message,
    and the store is as it was before the message was created.  The id is
    one that the sanitiser and the router leave as it is. *)
Theorem Page_shows_created_message
    (xss : jsstring -> jsstring) (route : jsstring -> option jsstring)
    (src : entropy) (t_created t_now : Z)
    (p : jsstring) (headers : gmap jsstring jsstring)
    (db : gmap jsstring Single.Message) (i : jsstring)
    (db' : gmap jsstring Single.Message) (n : nat) :
  wf_string p -> isWellFormed p = true ->
  Single.set src t_created t_now p headers db = (Returned i, db') ->
  xss i = i -> route i = Some i ->
  let w := Page.effects xss route (repeat (Some i) (S n))
             {| Page.page := Page.initial; Page.server := db'; Page.requests := [] |} in
  Page.render (Page.page w) = [Page.MessagePanel (Some p)] /\
  Page.requests w = [i] /\
  Page.server w = db.
Proof.
  intros Hp Hw Hset Hi Hroute. cbv zeta.
  assert (Hlen : length i = 32%nat).
  { pose proof (Single_set_row _ _ _ _ _ _ _ _ Hset) as H. cbv zeta in H.
    destruct (db !! drawn_id src (length p)); destruct H as [[= Hid] _].
    rewrite Hid. apply drawn_id_length. }
  apply Single_set_Returned in Hset as (Hfresh & row & -> & Hk & Hm & _).
  destruct i as [|c s]; [discriminate|].
  rewrite Page_effects_first by reflexivity.
  cbn [repeat Page.first_truthy Page.truthy].
  cbn [Page.page Page.server Page.requests Page.initial
       Page.message Page.error Page.loading].
  rewrite (Page_fetchMessage_found xss route (c :: s) (c :: s) _ row Hroute)
    by (cbn [Page.server]; rewrite Hi; apply lookup_insert_eq).
  cbn [Page.page Page.server Page.requests Page.message Page.error Page.loading].
  rewrite Hm, Hk, stored_text_decodes by assumption.
  split; [reflexivity|]. split; [reflexivity|].
  rewrite Hi, delete_insert_eq. now apply delete_id.
Qed.

(** ** The properties above at sample inputs *)

Lemma wf_string_hello : wf_string (lit "hello").
Proof. repeat constructor; unfold code_unit; cbn; lia. Qed.

Lemma wf_string_x : wf_string (lit "x").
Proof. repeat constructor; unfold code_unit; cbn; lia. Qed.

Lemma empty_key_changes_nothing_witness :
  wf_string (lit "hello") /\
  encryptMessage (lit "hello") [] = lit "hello" /\
  decryptMessage (lit "hello") [] = lit "hello".
Proof.
  split; [exact wf_string_hello|].
  exact (empty_key_changes_nothing (lit "hello") wf_string_hello).
Defined.

Lemma encrypt_reuses_key_cyclically_witness :
  lit "hello" !! 2%nat = Some 108 /\
  exists x, lit "ab" !! (2 mod length (lit "ab"))%nat = Some x /\
            encryptMessage (lit "hello") (lit "ab") !! 2%nat = Some (Z.lxor 108 x).
Proof.
  split; [reflexivity|].
  apply (encrypt_reuses_key_cyclically (lit "hello") (lit "ab") 2 108).
  - exact wf_string_hello.
  - repeat constructor; unfold code_unit; cbn; lia.
  - discriminate.
  - reflexivity.
Defined.

Lemma encrypt_uses_key_prefix_witness :
  (length (lit "hi") <= length (lit "3fa9"))%nat /\
  encryptMessage (lit "hi") (lit "3fa9")
  = encryptMessage (lit "hi") (take (length (lit "hi")) (lit "3fa9")).
Proof.
  assert (H : (length (lit "hi") <= length (lit "3fa9"))%nat) by (cbn; lia).
  split; [exact H|].
  exact (encrypt_uses_key_prefix (lit "hi") (lit "3fa9") H).
Defined.


Lemma toString_hex_injective_witness :
  toString_hex [x01; xff]%byte = toString_hex [x01; xff]%byte /\
  [x01; xff]%byte = [x01; xff]%byte.
Proof.
  split; [reflexivity|].
  exact (toString_hex_injective [x01; xff]%byte [x01; xff]%byte eq_refl).
Defined.

Lemma Single_set_never_overwrites_witness :
  is_Some (sample_single_db
             !! drawn_id sample_entropy (length (escapeHtml (lit "y")))) /\
  Single.set sample_entropy 5 5 (escapeHtml (lit "y")) ∅ sample_single_db
  = (Thrown SQLITE_CONSTRAINT_PRIMARYKEY, sample_single_db) /\
  Single.message_post escapeHtml sample_entropy 5 5 (lit "y") ∅ sample_single_db
  = (Single.Error_500 SQLITE_CONSTRAINT_PRIMARYKEY, sample_single_db).
Proof.
  assert (H : is_Some (sample_single_db
                         !! drawn_id sample_entropy (length (escapeHtml (lit "y")))))
    by (vm_compute; eexists; reflexivity).
  split; [exact H|].
  exact (Single_set_never_overwrites escapeHtml sample_entropy 5 5 (lit "y") ∅
           sample_single_db H).
Defined.

Lemma Single_set_adds_one_row_witness :
  (∅ : gmap jsstring Single.Message) !! sample_id 1 = None /\
  is_Some (sample_single_db !! sample_id 1) /\
  (forall j, j <> sample_id 1 ->
             sample_single_db !! j = (∅ : gmap jsstring Single.Message) !! j) /\
  size sample_single_db = S (size (∅ : gmap jsstring Single.Message)).
Proof.
  exact (Single_set_adds_one_row sample_entropy 0 0 (lit "x") ∅ ∅
           (sample_id 1) sample_single_db sample_single_db_created).
Defined.

Lemma sample_id_not_00 : sample_id 1 <> lit "00".
Proof. intros H. vm_compute in H. discriminate. Qed.

Lemma Single_fetches_commute_witness :
  let '(ri, db1) := Single.fetchAndConsume (sample_id 1) sample_single_db in
  let '(rj, db2) := Single.fetchAndConsume (lit "00") db1 in
  let '(rj', db1') := Single.fetchAndConsume (lit "00") sample_single_db in
  let '(ri', db2') := Single.fetchAndConsume (sample_id 1) db1' in
  ri = ri' /\ rj = rj' /\ db2 = db2'.
Proof.
  exact (Single_fetches_commute (sample_id 1) (lit "00") sample_single_db
           sample_id_not_00).
Defined.

Lemma Single_create_fetch_restores_witness :
  snd (Single.fetchAndConsume (sample_id 1) sample_single_db) = ∅.
Proof.
  exact (Single_create_fetch_restores sample_entropy 0 0 (lit "x") ∅ ∅
           (sample_id 1) sample_single_db sample_single_db_created).
Defined.

Lemma Single_sweeps_compose_witness :
  Single.purgeExpired 86400001 (Single.purgeExpired 0 sample_single_db)
  = Single.purgeExpired (Z.max 0 86400001) sample_single_db.
Proof.
  apply (Single_sweeps_compose 0 86400001 sample_single_db); lia.
Defined.

Lemma timestamps_order_as_instants_witness :
  length (toISOString 0) = 24%nat /\
  (text_ltb (toISOString 0) (toISOString 1700000000000) = true
   <-> 0 < 1700000000000) /\
  (toISOString 0 = toISOString 1700000000000 <-> 0 = 1700000000000).
Proof.
  apply (timestamps_order_as_instants 0 1700000000000); lia.
Defined.

Lemma Single_purge_created_record_witness :
  Single.exists_ (sample_id 1) (Single.purgeExpired 90000000 sample_single_db)
  = negb (0 + 86400000 <? 90000000).
Proof.
  apply (Single_purge_created_record sample_entropy 0 0 (lit "x") ∅ ∅
           (sample_id 1) sample_single_db 90000000).
  - exact sample_single_db_created.
  - lia.
  - lia.
Defined.

Lemma stored_provenance_witness :
  exists row,
    sample_single_db !! sample_id 1 = Some row /\
    Single.userAgent row = (∅ : gmap jsstring jsstring) !! lit "user-agent" /\
    Single.ipReader row = None /\
    Single.ipWriter row =
      (if Page.truthy ((∅ : gmap jsstring jsstring) !! lit "x-forwarded-for")
       then (∅ : gmap jsstring jsstring) !! lit "x-forwarded-for"
       else if Page.truthy ((∅ : gmap jsstring jsstring) !! lit "x-real-ip")
            then (∅ : gmap jsstring jsstring) !! lit "x-real-ip"
            else None).
Proof.
  exact (stored_provenance sample_entropy 0 0 (lit "x") ∅ ∅
           (sample_id 1) sample_single_db sample_single_db_created).
Defined.

Lemma Split_create_then_fetch_witness :
  exists r db1,
    Split.fetchAndConsume (sample_id 1) sample_split_db = (Some r, db1) /\
    (isWellFormed (lit "x") = true ->
     decryptMessage (Split.message r) (Split.key r) = lit "x" /\
     Split.fetchMessage (Split.Ok_message r) = Single.Shown (lit "x")) /\
    Split.fetchAndConsume (sample_id 1) db1 = (None, db1).
Proof.
  exact (Split_create_then_fetch sample_entropy 0 0 (lit "x") ∅ Split.empty_db
           (sample_id 1) sample_split_db wf_string_x sample_split_db_created).
Defined.

Lemma Split_sweep_and_expiry_witness :
  Split.exists_ (sample_id 1) (Split.purgeExpired 86400000 sample_split_db)
  = (86400000 <? 0 + 86400000) /\
  (Split.messages (Split.purgeExpired 86400000 sample_split_db) !! sample_id 1 = None
   <-> 0 + 86400000 < 86400000) /\
  (Split.messages
     (Split.purgeExpired 86400000
        (snd (Split.fetchAndConsume (sample_id 1) sample_split_db))) !! sample_id 1
   = None <-> 0 + 86400000 < 86400000).
Proof.
  apply (Split_sweep_and_expiry sample_entropy 0 0 (lit "x") ∅ Split.empty_db
           (sample_id 1) sample_split_db 86400000).
  - exact sample_split_db_created.
  - lia.
  - lia.
Defined.

Lemma escapeHtml_sample_id : escapeHtml (sample_id 1) = sample_id 1.
Proof. vm_compute. reflexivity. Qed.

Lemma sample_route_sample_id : sample_route (sample_id 1) = Some (sample_id 1).
Proof. vm_compute. reflexivity. Qed.

Lemma Page_shows_created_message_witness :
  let w := Page.effects escapeHtml sample_route (repeat (Some (sample_id 1)) 2)
             {| Page.page := Page.initial; Page.server := sample_single_db;
                Page.requests := [] |} in
  Page.render (Page.page w) = [Page.MessagePanel (Some (lit "x"))] /\
  Page.requests w = [sample_id 1] /\
  Page.server w = ∅.
Proof.
  exact (Page_shows_created_message escapeHtml sample_route sample_entropy 0 0
           (lit "x") ∅ ∅ (sample_id 1) sample_single_db 1 wf_string_x eq_refl
           sample_single_db_created escapeHtml_sample_id sample_route_sample_id).
Defined.
